(** * Renewable tender autofill: tag extraction and column mapping

    A shallow embedding of [renewable_excel_autofill.py]: the text
    normaliser, the tag extractor, the schema mapper, the schema loader and
    the workbook glue, together with the properties established for them. *)

From Stdlib Require Import NArith Ascii String DecimalString.
From stdpp Require Import base option list gmap.

Local Open Scope N_scope.

(** ** Python strings

    A Python [str] is a finite sequence of Unicode code points; a code point
    is a natural number. *)

Abbreviation char := N.
Abbreviation str := (list N).

(** ASCII literals, written as Rocq strings, denote the [str] with the same
    characters. *)
Definition py (s : string) : str :=
  (fun a : ascii => N_of_ascii a) <$> list_ascii_of_string s.

Module Chr.
Definition TAB : char := 9.
Definition LF : char := 10.
Definition CR : char := 13.
Definition SPACE : char := 32.
Definition UNDERSCORE : char := 95.
Definition NBSP : char := 160.
End Chr.

(** [s.replace(old, new)] for one-character [old] and [new]. *)
Definition replace_char (old new : char) (s : str) : str :=
  (fun c => if c =? old then new else c) <$> s.

(** [re.sub(r"[...]+", repl, s)] for a pattern that is one character class
    under [+]: scanning from the left, every maximal run of characters of
    the class is replaced by [repl]; the flag records that the scan is
    inside a run whose replacement is already emitted. *)
Fixpoint sub_runs_from (cls : char → bool) (repl : str) (in_run : bool)
    (s : str) : str :=
  match s with
  | [] => []
  | c :: s' =>
      if cls c then
        if in_run then sub_runs_from cls repl true s'
        else repl ++ sub_runs_from cls repl true s'
      else c :: sub_runs_from cls repl false s'
  end.

Definition sub_runs (cls : char → bool) (repl : str) (s : str) : str :=
  sub_runs_from cls repl false s.

(** The left and the right scan of [str.strip]. *)
Fixpoint lstrip_by (p : char → bool) (s : str) : str :=
  match s with
  | [] => []
  | c :: s' => if p c then lstrip_by p s' else s
  end.

Fixpoint rstrip_by (p : char → bool) (s : str) : str :=
  match s with
  | [] => []
  | c :: s' =>
      match rstrip_by p s' with
      | [] => if p c then [] else [c]
      | r => c :: r
      end
  end.

Definition strip_by (p : char → bool) (s : str) : str :=
  rstrip_by p (lstrip_by p s).

(** [str.isspace] on one code point (CPython's [_PyUnicode_IsWhitespace]):
    the characters [s.strip()] removes. *)
Definition isspace (c : char) : bool :=
  ((9 <=? c) && (c <=? 13)) || ((28 <=? c) && (c <=? 32))
  || (c =? 133) || (c =? 160) || (c =? 5760)
  || ((8192 <=? c) && (c <=? 8202))
  || (c =? 8232) || (c =? 8233) || (c =? 8239) || (c =? 8287)
  || (c =? 12288).

(** [s.strip()] and [s.strip(chars)]. *)
Definition strip (s : str) : str := strip_by isspace s.

Definition strip_chars (chars : str) (s : str) : str :=
  strip_by (fun c => bool_decide (c ∈ chars)) s.

Definition is_upper_ascii (c : char) : bool := (65 <=? c) && (c <=? 90).
Definition is_lower_ascii (c : char) : bool := (97 <=? c) && (c <=? 122).
Definition is_digit_ascii (c : char) : bool := (48 <=? c) && (c <=? 57).

(** [s.lower()]. The program lowers only strings made of ASCII letters,
    digits and underscores (see [column_key_sub_chars] below), where lowering
    shifts [A-Z] to [a-z] and keeps every other character. *)
Definition lower_char (c : char) : char :=
  if is_upper_ascii c then c + 32 else c.

Definition lower (s : str) : str := lower_char <$> s.

(** ** [normalize_space] *)

(** The class [[\u00A0\t ]]: non-breaking space, tab, space. *)
Definition is_blank (c : char) : bool :=
  (c =? Chr.NBSP) || (c =? Chr.TAB) || (c =? Chr.SPACE).

(** [re.sub(r"[\u00A0\t ]+", " ", s.replace("\r", "\n")).strip()] *)
Definition normalize_space (s : str) : str :=
  strip (sub_runs is_blank [Chr.SPACE] (replace_char Chr.CR Chr.LF s)).

(** ** Exceptions and the log

    The program's effects are the exceptions it lets escape and the records
    it hands to [logging]. A computation yields the records it logged, in
    order, and either the exception that ended it or its value. *)

Inductive exn :=
  | ReError (msg : str)          (* re.error, [msg] is [str(e)] *)
  | AttributeError
  | KeyError (key : str)
  | FileNotFoundError
  | InvalidFileException
  | OtherException (name : str).

Inductive level := INFO | WARNING.

Record log_record := LogRecord { lvl : level; message : str }.

Definition M (A : Type) : Type := (list log_record * (exn + A))%type.

Definition ret {A} (x : A) : M A := ([], inr x).

Definition raise {A} (e : exn) : M A := ([], inl e).

Definition bind {A B} (m : M A) (f : A → M B) : M B :=
  match m with
  | (l, inl e) => (l, inl e)
  | (l, inr x) => let '(l', r) := f x in (l ++ l', r)
  end.

Definition logging_warning (msg : str) : M unit :=
  ([LogRecord WARNING msg], inr tt).

Definition logging_info (msg : str) : M unit :=
  ([LogRecord INFO msg], inr tt).

#[global] Instance M_ret : MRet M := @ret.
#[global] Instance M_bind : MBind M := fun A B f m => bind m f.

(** ** The regular expression engine

    [re] is Python's library, not part of the program; the extractor is
    modelled over its interface. A successful [re.search] gives a match
    object, of which the program reads [m.group(0)] and [m.groupdict()]: the
    dictionary of the pattern's named groups, holding [None] for a group
    that took no part in the match. *)

Record match_obj := MatchObj {
  group0 : str;
  groupdict : gmap str (option str)
}.

(** [re.search(pat, text, flags=re.IGNORECASE|re.MULTILINE)]: an exception
    ([re.error] for a malformed pattern), [None], or a match object. *)
Definition search_fn : Type := str → str → exn + option match_obj.

(** [d.get(k, dflt)] *)
Definition dict_get {V} (d : gmap str V) (k : str) (dflt : V) : V :=
  default dflt (d !! k).

(** [d.setdefault(k, v)], for its effect on [d]. *)
Definition dict_setdefault {V} (k : str) (v : V) (d : gmap str V) : gmap str V :=
  match d !! k with
  | Some _ => d
  | None => <[k := v]> d
  end.

(** The call [normalize_space(val)] where [val] may be [None]:
    [None.replace] raises [AttributeError]. *)
Definition call_normalize_space (val : option str) : M str :=
  match val with
  | Some s => mret (normalize_space s)
  | None => raise AttributeError
  end.

(** [m.groupdict().get("value", m.group(0))]: the text of the group named
    [value] when the pattern has one ([None] if it took no part in the
    match), the whole match otherwise. *)
Definition match_value (m : match_obj) : option str :=
  dict_get (groupdict m) (py "value") (Some (group0 m)).

(** ** [extract_tags] *)

Section Extractor.

Variable re_search : search_fn.

(** The inner loop [for pat in patterns] for one tag. *)
Fixpoint try_patterns (tag text : str) (patterns : list str)
    (out : gmap str str) : M (gmap str str) :=
  match patterns with
  | [] => mret out
  | pat :: rest =>
      match re_search pat text with
      | inl (ReError e) =>
          logging_warning (py "Bad regex for " ++ tag ++ py ": " ++ e) ;;
          try_patterns tag text rest out
      | inl other => raise other
      | inr None => try_patterns tag text rest out
      | inr (Some m) =>
          let val := match_value m in
          v ← call_normalize_space val;
          mret (<[tag := v]> out)
      end
  end.

(** The outer loop [for tag, patterns in tag_rules.items()]; the rules are
    the dictionary's items in iteration order. *)
Fixpoint extract_loop (text : str) (items : list (str * list str))
    (out : gmap str str) : M (gmap str str) :=
  match items with
  | [] => mret out
  | (tag, patterns) :: rest =>
      out' ← try_patterns tag text patterns out;
      extract_loop text rest out'
  end.

Definition extract_tags (text : str) (tag_rules : list (str * list str))
    : M (gmap str str) :=
  let text := normalize_space text in
  extract_loop text tag_rules ∅.

End Extractor.

(** ** [build_row] *)

Definition is_alnum_ascii (c : char) : bool :=
  is_upper_ascii c || is_lower_ascii c || is_digit_ascii c.

(** [re.sub(r"[^A-Za-z0-9]+", "_", col).lower().strip("_")] *)
Definition column_key (col : str) : str :=
  strip_chars (py "_")
    (lower (sub_runs (fun c => negb (is_alnum_ascii c)) (py "_") col)).

Definition aliases : list (str * list str) :=
  [ (py "project_name", [py "project"; py "tender_name"; py "name_of_work"]);
    (py "project_capacity_mw", [py "capacity_mw"; py "capacity"]);
    (py "storage_capacity_mwh", [py "bess_mwh"; py "storage_mwh"]);
    (py "bid_submission_deadline", [py "submission_deadline"; py "bid_due_date"]);
    (py "emd_amount_rs", [py "emd"; py "earnest_money"]);
    (py "pbg_percent_or_amount", [py "pbg"; py "performance_bg"]);
    (py "completion_time_months", [py "completion_time"; py "time_for_completion"]);
    (py "price_cap_rs_per_kwh", [py "tariff_cap"; py "ceiling_tariff"]);
    (py "interconnection_voltage_kv", [py "grid_voltage_kv"; py "voltage_kv"]) ].

(** The loop [for tag, aka in aliases] with its [break]; [filled] is the
    value the variable holds when the loop is entered. *)
Fixpoint alias_loop (key : str) (tag_values : gmap str str)
    (table : list (str * list str)) (filled : str) : str :=
  match table with
  | [] => filled
  | (tag, aka) :: rest =>
      if bool_decide (key ∈ aka) then
        match tag_values !! tag with
        | Some v => v
        | None => alias_loop key tag_values rest filled
        end
      else alias_loop key tag_values rest filled
  end.

(** The body of [for col in columns]: the value appended to [row]. *)
Definition cell_value (col : str) (tag_values : gmap str str) : str :=
  let key := column_key col in
  match tag_values !! key with
  | Some v => v
  | None => alias_loop key tag_values aliases []
  end.

Fixpoint build_row_loop (columns : list str) (tag_values : gmap str str)
    (row : list str) : list str :=
  match columns with
  | [] => row
  | col :: rest =>
      build_row_loop rest tag_values (row ++ [cell_value col tag_values])
  end.

Definition build_row (columns : list str) (tag_values : gmap str str)
    : list str :=
  build_row_loop columns tag_values [].

(** ** [load_columns] *)

(** The value [json.loads] returns: [None], [bool], number, [str], [list]
    or [dict]. A number is kept as its literal. *)
#[local] Unset Elimination Schemes.
Inductive json :=
  | JNull
  | JBool (b : bool)
  | JNumber (literal : str)
  | JString (s : str)
  | JArray (items : list json)
  | JObject (members : gmap str json).
#[local] Set Elimination Schemes.

Definition lift {A} (r : exn + A) : M A := ([], r).

(** [meta.get(k, dflt)]: only a [dict] has the method [get]. *)
Definition meta_get (meta : json) (k : str) (dflt : json) : M json :=
  match meta with
  | JObject d => mret (dict_get d k dflt)
  | _ => raise AttributeError
  end.

Section Loader.

(** [Path(p).read_text(encoding="utf-8")] and [json.loads]. *)
Variable read_text : str → exn + str.
Variable json_loads : str → exn + json.

(** The result is the pair [(sheet, columns)]. *)
Definition load_columns (columns_path : str) : M (json * json) :=
  raw ← lift (read_text columns_path);
  meta ← lift (json_loads raw);
  columns ← meta_get meta (py "columns") (JArray []);
  sheet ← meta_get meta (py "detected_master_sheet") (JString (py "Master"));
  mret (sheet, columns).

End Loader.

(** ** Workbooks

    [openpyxl] is a library too. A worksheet is modelled by its title and
    its rows from the top, a workbook by its worksheets in order, and the
    file system maps a path to the file stored there. *)

Record worksheet := Worksheet { title : str; ws_rows : list (list str) }.

Abbreviation workbook := (list worksheet).

Inductive file :=
  | WorkbookFile (wb : workbook)
  | OtherFile (content : str).

Definition sheetnames (wb : workbook) : list str := title <$> wb.

(** [ws.append(r)] when it returns (openpyxl refuses a cell that holds a
    control character): the row is added below the rows of the sheet. *)
Definition ws_append (r : list str) (ws : worksheet) : worksheet :=
  Worksheet (title ws) (ws_rows ws ++ [r]).

(** [ws.max_row]: the largest row index holding data, and [1] for a sheet
    without cells. *)
Definition max_row (ws : worksheet) : nat := Nat.max 1 (length (ws_rows ws)).

(** [wb[name]], when the sheet exists. *)
Fixpoint wb_get (name : str) (wb : workbook) : option worksheet :=
  match wb with
  | [] => None
  | ws :: rest => if decide (title ws = name) then Some ws else wb_get name rest
  end.

(** The worksheet [wb[name]] is an object of the workbook: a change made
    through it is a change of the workbook. *)
Fixpoint wb_modify (name : str) (f : worksheet → worksheet) (wb : workbook)
    : workbook :=
  match wb with
  | [] => []
  | ws :: rest =>
      if decide (title ws = name) then f ws :: rest
      else ws :: wb_modify name f rest
  end.

(** [load_workbook(str(path))]; for a file that is no workbook the library
    raises [InvalidFileException] or, under a workbook extension, the
    [BadZipFile] of [zipfile]: the model has one exception for both. *)
Definition load_workbook (fs : gmap str file) (path : str) : M workbook :=
  match fs !! path with
  | None => raise FileNotFoundError
  | Some (WorkbookFile wb) => mret wb
  | Some (OtherFile _) => raise InvalidFileException
  end.

(** [wb.save(str(path))] *)
Definition wb_save (path : str) (wb : workbook) (fs : gmap str file)
    : gmap str file :=
  <[path := WorkbookFile wb]> fs.

(** [Workbook()] followed by [ws = wb.active; ws.title = master_sheet;
    ws.append(columns)]. *)
Definition new_workbook (master_sheet : str) (columns : list str) : workbook :=
  [ws_append columns (Worksheet master_sheet [])].

(** [template and template.exists()]: the template path when it counts. *)
Definition usable_template (fs : gmap str file) (template : option str)
    : option str :=
  match template with
  | Some t => if bool_decide (is_Some (fs !! t)) then Some t else None
  | None => None
  end.

Definition ensure_workbook (out_path : str) (template : option str)
    (master_sheet : str) (columns : list str) (fs : gmap str file)
    : M (gmap str file) :=
  wb ← match usable_template fs template with
       | Some t =>
           wb ← load_workbook fs t;
           match wb_get master_sheet wb with
           | None =>
               mret (wb ++ [ws_append columns (Worksheet master_sheet [])])
           | Some ws =>
               if (max_row ws <? 1)%nat
               then mret (wb_modify master_sheet (ws_append columns) wb)
               else mret wb
           end
       | None => mret (new_workbook master_sheet columns)
       end;
  mret (wb_save out_path wb fs).

Definition append_rows (out_path master_sheet : str) (rows : list (list str))
    (fs : gmap str file) : M (gmap str file) :=
  wb ← load_workbook fs out_path;
  match wb_get master_sheet wb with
  | None => raise (KeyError master_sheet)
  | Some _ =>
      let wb' :=
        wb_modify master_sheet (fun ws => foldl (fun w r => ws_append r w) ws rows) wb in
      mret (wb_save out_path wb' fs)
  end.

(** ** [main], after the configuration is loaded *)

(** A supported file of the documents folder, as the loop of [main] meets
    it: [p.name], the text [read_any_text(p)] returns, and the reading of
    [datetime.now().isoformat(timespec="seconds")] at its turn. *)
Record document := Document {
  doc_name : str;
  doc_text : str;
  doc_now : str
}.

(** [str(n)] for a natural number. *)
Definition py_int (n : nat) : str :=
  py (NilEmpty.string_of_uint (Nat.to_uint n)).

Section Driver.

Variable re_search : search_fn.

(** The loop over the supported files of the folder, in sorted order. *)
Fixpoint process_docs (docs : list document) (columns : list str)
    (tag_rules : list (str * list str)) (rows_to_write : list (list str))
    : M (list (list str)) :=
  match docs with
  | [] => mret rows_to_write
  | p :: rest =>
      logging_info (py "Parsing " ++ doc_name p) ;;
      if bool_decide (strip (doc_text p) = []) then
        logging_warning (py "No text extracted from " ++ doc_name p) ;;
        process_docs rest columns tag_rules rows_to_write
      else
        tags ← extract_tags re_search (doc_text p) tag_rules;
        let tags := dict_setdefault (py "source_file") (doc_name p) tags in
        let tags := dict_setdefault (py "ingested_at") (doc_now p) tags in
        let row := build_row columns tags in
        process_docs rest columns tag_rules (rows_to_write ++ [row])
  end.

(** [main] from [logging.info("Master sheet: ...")] on; it yields the file
    system it leaves behind. *)
Definition run (out_path : str) (template : option str) (master_sheet : str)
    (columns : list str) (tag_rules : list (str * list str))
    (docs : list document) (fs : gmap str file) : M (gmap str file) :=
  logging_info (py "Master sheet: " ++ master_sheet ++ py " ("
                ++ py_int (length columns) ++ py " columns)") ;;
  fs ← ensure_workbook out_path template master_sheet columns fs;
  rows_to_write ← process_docs docs columns tag_rules [];
  match rows_to_write with
  | _ :: _ =>
      fs ← append_rows out_path master_sheet rows_to_write fs;
      logging_info (py "Wrote " ++ py_int (length rows_to_write)
                    ++ py " rows to " ++ out_path) ;;
      mret fs
  | [] =>
      logging_warning (py "No rows to write " ++ [8212]
                       ++ py " did not find supported files or matches.") ;;
      mret fs
  end.

End Driver.

(** ** A reference engine for a fragment of the pattern syntax

    The statements about the extractor hold for every engine. To run the
    extractor on concrete rules, this module implements [re.search] with
    the flags above for the patterns built from literal characters, [.],
    groups [(...)] and [(?P<name>...)], alternation [|] and the greedy
    quantifiers [*], [+], [?] on items that cannot match the empty string,
    over ASCII patterns and texts. Outside this fragment it gives no
    answer. *)

Module Fragment.

Inductive regex :=
  | REmpty
  | RChar (c : char)
  | RAny
  | RSeq (r1 r2 : regex)
  | RAlt (r1 r2 : regex)
  | RStar (r : regex)
  | RGroup (name : option str) (r : regex).

Fixpoint nullable (r : regex) : bool :=
  match r with
  | REmpty => true
  | RChar _ | RAny => false
  | RSeq r1 r2 => nullable r1 && nullable r2
  | RAlt r1 r2 => nullable r1 || nullable r2
  | RStar _ => true
  | RGroup _ r1 => nullable r1
  end.

(** *** Parsing *)

Inductive parsed (A : Type) :=
  | Parsed (x : A)
  | Malformed (msg : str) (pos : nat)
  | Outside.

Arguments Parsed {A} x.
Arguments Malformed {A} msg pos.
Arguments Outside {A}.

Definition is_quantifier (c : char) : bool := bool_decide (c ∈ py "*+?").

Definition is_unsupported (c : char) : bool :=
  bool_decide (c ∈ py "\[]{}^$") || (c =? Chr.LF) || (128 <=? c).

Definition is_ident_start (c : char) : bool :=
  is_upper_ascii c || is_lower_ascii c || (c =? Chr.UNDERSCORE).

Definition is_ident (c : char) : bool :=
  is_ident_start c || is_digit_ascii c.

(** The name of [(?P<name>], read up to [>]. *)
Fixpoint read_name (s : str) (acc : str) : option (str * str) :=
  match s with
  | [] => None
  | c :: s' =>
      if c =? 62 then Some (acc, s')
      else if is_ident c then read_name s' (acc ++ [c])
      else None
  end.

Definition quantify (q : char) (r : regex) : regex :=
  if q =? 42 then RStar r
  else if q =? 43 then RSeq r (RStar r)
  else RAlt r REmpty.

(** An atom with the quantifier that may follow it. *)
Definition with_quantifier (r : regex) (s : str) (pos : nat)
    (names : list str) : parsed (regex * str * nat * list str) :=
  match s with
  | q :: s' =>
      if is_quantifier q then
        if nullable r then Outside
        else match s' with
             | q' :: _ =>
                 if is_quantifier q' || (q' =? 123) then Outside
                 else Parsed (quantify q r, s', S pos, names)
             | [] => Parsed (quantify q r, s', S pos, names)
             end
      else Parsed (r, s, pos, names)
  | [] => Parsed (r, s, pos, names)
  end.

Fixpoint strip_prefix (p s : str) : option str :=
  match p, s with
  | [], _ => Some s
  | a :: p', b :: s' => if a =? b then strip_prefix p' s' else None
  | _ :: _, [] => None
  end.

Definition starts_with (c : char) (s : str) : bool :=
  match s with
  | d :: _ => d =? c
  | [] => false
  end.

(** The opening of a group, after [(]: its name, if any, and what is left
    of the pattern. *)
Definition group_open (s : str) (pos : nat) (names : list str)
    : option (option str * str * nat * list str) :=
  match strip_prefix (py "?P<") s with
  | Some s' =>
      match read_name s' [] with
      | Some (c :: name, s'') =>
          if is_ident_start c && negb (bool_decide (c :: name ∈ names))
          then Some (Some (c :: name), s'',
                     (pos + 4 + length (c :: name))%nat, (c :: name) :: names)
          else None
      | _ => None
      end
  | None =>
      if starts_with 63 s then None else Some (None, s, pos, names)
  end.

(** A sequence ends at the end of the pattern, at [)] and at [|]. *)
Definition at_seq_end (s : str) : bool :=
  match s with
  | [] => true
  | c :: _ => (c =? 41) || (c =? 124)
  end.

Fixpoint parse_alt (fuel : nat) (s : str) (pos : nat) (names : list str)
    {struct fuel} : parsed (regex * str * nat * list str) :=
  match fuel with
  | O => Outside
  | S fuel =>
      match parse_seq fuel s pos names with
      | Parsed (r1, s1, pos1, names1) =>
          if starts_with 124 s1 then
            match parse_alt fuel (tail s1) (S pos1) names1 with
            | Parsed (r2, s2, pos2, names2) =>
                Parsed (RAlt r1 r2, s2, pos2, names2)
            | e => e
            end
          else Parsed (r1, s1, pos1, names1)
      | e => e
      end
  end
with parse_seq (fuel : nat) (s : str) (pos : nat) (names : list str)
    {struct fuel} : parsed (regex * str * nat * list str) :=
  match fuel with
  | O => Outside
  | S fuel =>
      if at_seq_end s then Parsed (REmpty, s, pos, names)
      else
        match parse_item fuel s pos names with
        | Parsed (r1, s1, pos1, names1) =>
            match parse_seq fuel s1 pos1 names1 with
            | Parsed (r2, s2, pos2, names2) =>
                Parsed (RSeq r1 r2, s2, pos2, names2)
            | e => e
            end
        | e => e
        end
  end
with parse_item (fuel : nat) (s : str) (pos : nat) (names : list str)
    {struct fuel} : parsed (regex * str * nat * list str) :=
  match fuel with
  | O => Outside
  | S fuel =>
      match s with
      | [] => Outside
      | c :: s' =>
          if is_quantifier c then Malformed (py "nothing to repeat") pos
          else if is_unsupported c then Outside
          else if c =? 40 then
            match group_open s' (S pos) names with
            | None => Outside
            | Some (name, s1, pos1, names1) =>
                match parse_alt fuel s1 pos1 names1 with
                | Parsed (r, s2, pos2, names2) =>
                    if starts_with 41 s2 then
                      with_quantifier (RGroup name r) (tail s2) (S pos2) names2
                    else
                      Malformed (py "missing ), unterminated subpattern") pos
                | e => e
                end
            end
          else if c =? 46 then with_quantifier RAny s' (S pos) names
          else with_quantifier (RChar c) s' (S pos) names
      end
  end.

(** A whole pattern: what is left after the top-level alternation can only
    be a closing parenthesis without its opening one. A pattern that holds a
    character outside the fragment anywhere gets no answer: Python reads one
    token ahead, and reports a backslash that ends the pattern before an
    error that stands to its left. *)
Definition parse (pat : str) : parsed (regex * list str) :=
  if existsb is_unsupported pat then Outside
  else
    match parse_alt (4 * length pat + 4) pat 0 [] with
    | Parsed (r, [], _, names) => Parsed (r, names)
    | Parsed (_, _ :: _, pos, _) => Malformed (py "unbalanced parenthesis") pos
    | Malformed msg pos => Malformed msg pos
    | Outside => Outside
    end.

(** *** Matching

    A backtracking matcher in continuation style: [rmatch r k s caps] matches
    [r] at the front of [s] and hands what is left, and the groups captured
    so far, to [k]; alternatives are tried left to right and a starred item
    is tried before its exit. *)

Abbreviation captures := (gmap str (option str)).

Fixpoint rmatch (r : regex) (k : str → captures → option (str * captures))
    (s : str) (caps : captures) {struct r} : option (str * captures) :=
  match r with
  | REmpty => k s caps
  | RChar c =>
      match s with
      | d :: s' => if lower_char c =? lower_char d then k s' caps else None
      | [] => None
      end
  | RAny =>
      match s with
      | d :: s' => if d =? Chr.LF then None else k s' caps
      | [] => None
      end
  | RSeq r1 r2 => rmatch r1 (fun s' caps' => rmatch r2 k s' caps') s caps
  | RAlt r1 r2 =>
      match rmatch r1 k s caps with
      | Some res => Some res
      | None => rmatch r2 k s caps
      end
  | RStar r1 =>
      (fix loop (fuel : nat) (s : str) (caps : captures) {struct fuel}
         : option (str * captures) :=
         match fuel with
         | O => k s caps
         | S fuel' =>
             match rmatch r1
                     (fun s' caps' =>
                        if (length s' <? length s)%nat then loop fuel' s' caps'
                        else None) s caps with
             | Some res => Some res
             | None => k s caps
             end
         end) (length s) s caps
  | RGroup name r1 =>
      rmatch r1
        (fun s' caps' =>
           match name with
           | Some n =>
               k s' (<[n := Some (take (length s - length s') s)]> caps')
           | None => k s' caps'
           end) s caps
  end.

(** The leftmost match: the start positions are tried from the left. *)
Fixpoint search_at (r : regex) (caps : captures) (s : str)
    : option match_obj :=
  let here :=
    match rmatch r (fun s' c => Some (s', c)) s caps with
    | Some (s', c) => Some (MatchObj (take (length s - length s') s) c)
    | None => None
    end in
  match s with
  | [] => here
  | _ :: s' =>
      match here with
      | Some m => Some m
      | None => search_at r caps s'
      end
  end.

Definition is_ascii (s : str) : bool := forallb (fun c => c <? 128) s.

(** [re.search] on the fragment; [None] outside it. *)
Definition search (pat text : str) : option (exn + option match_obj) :=
  if is_ascii text then
    match parse pat with
    | Parsed (r, names) =>
        Some (inr (search_at r (list_to_map ((fun n => (n, None)) <$> names)) text))
    | Malformed msg pos =>
        Some (inl (ReError (msg ++ py " at position " ++ py_int pos)))
    | Outside => None
    end
  else None.

(** The fragment as an engine. *)
Definition re_search : search_fn :=
  fun pat text =>
    default (inl (OtherException (py "outside the fragment"))) (search pat text).

End Fragment.

(** ** [load_tags]

    With PyYAML present the rule file is handed to [yaml.safe_load];
    without it the program reads the file line by line. *)

(** The line boundaries of [str.splitlines]: [\n], [\v], [\f], [\r],
    [\x1c], [\x1d], [\x1e], [\x85], [\u2028], [\u2029], and [\r\n] as
    one. *)
Definition is_linebreak (c : char) : bool :=
  ((10 <=? c) && (c <=? 13)) || ((28 <=? c) && (c <=? 30))
  || (c =? 133) || (c =? 8232) || (c =? 8233).

(** [s.splitlines()], scanning from the left with the line read so far;
    a line is closed by a boundary, and what follows the last boundary is
    a line when it is not empty. *)
Fixpoint splitlines_from (cur : str) (s : str) : list str :=
  match s with
  | [] => if bool_decide (cur = []) then [] else [cur]
  | c :: s' =>
      if is_linebreak c then
        match s' with
        | d :: s'' =>
            if (c =? Chr.CR) && (d =? Chr.LF) then cur :: splitlines_from [] s''
            else cur :: splitlines_from [] s'
        | [] => [cur]
        end
      else splitlines_from (cur ++ [c]) s'
  end.

Definition splitlines (s : str) : list str := splitlines_from [] s.

(** [s.startswith(prefix)] *)
Definition startswith (prefix s : str) : bool :=
  bool_decide (take (length prefix) s = prefix).

(** [s.split(sep, 1)[0]] for a one-character [sep]: what precedes the
    first [sep], the whole of [s] when it has none. *)
Fixpoint before_first (sep : char) (s : str) : str :=
  match s with
  | [] => []
  | c :: s' => if c =? sep then [] else c :: before_first sep s'
  end.

(** [rules[k] = v] on a dictionary kept as its items in insertion order: a
    key that is present keeps its place. *)
Fixpoint dict_set {V} (k : str) (v : V) (d : list (str * V))
    : list (str * V) :=
  match d with
  | [] => [(k, v)]
  | (k', v') :: d' =>
      if decide (k' = k) then (k, v) :: d' else (k', v') :: dict_set k v d'
  end.

(** [rules[k].append(x)]; [rules[k]] raises [KeyError] for a key that is
    not there. *)
Fixpoint dict_append (k : str) (x : str) (d : list (str * list str))
    : M (list (str * list str)) :=
  match d with
  | [] => raise (KeyError k)
  | (k', v) :: d' =>
      if decide (k' = k) then mret ((k', v ++ [x]) :: d')
      else d'' ← dict_append k x d'; mret ((k', v) :: d'')
  end.

(** The pattern of an item line (a dash, [\s*], a quote, the group [.*]
    between parentheses, a quote, [\s*], [$]) tried right after a dash: the white space
    that follows the dash is skipped and a quote must come next; the
    closing quote is followed by white space only, up to the end, so it is
    the last character that is not white space; the group is what lies
    between the two quotes and, [.] matching no newline, holds none. *)
Definition item_at (s : str) : option str :=
  match lstrip_by isspace s with
  | q :: rest =>
      if q =? 39 then
        let r := rstrip_by isspace rest in
        match last r with
        | Some q' =>
            let body := take (length r - 1) r in
            if (q' =? 39) && negb (bool_decide (Chr.LF ∈ body))
            then Some body else None
        | None => None
        end
      else None
  | [] => None
  end.

(** [re.search] for the pattern of an item line in [t], for its group 1:
    the leftmost dash at which the pattern matches. *)
Fixpoint item_search (t : str) : option str :=
  match t with
  | [] => None
  | c :: t' =>
      if c =? 45 then
        match item_at t' with
        | Some g => Some g
        | None => item_search t'
        end
      else item_search t'
  end.

(** The body of [for line in raw.splitlines()], on the pair of [rules] and
    [current_key]. *)
Definition load_tags_line (line : str)
    (st : list (str * list str) * option str)
    : M (list (str * list str) * option str) :=
  let '(rules, current_key) := st in
  if bool_decide (strip line = []) || startswith (py "#") (strip line)
  then mret st
  else if negb (startswith (py " ") line) then
    let key := strip (before_first 58 line) in
    mret (dict_set key [] rules, Some key)
  else
    match item_search (strip line), current_key with
    | Some g, Some k =>
        if bool_decide (k = []) then mret st
        else rules' ← dict_append k g rules; mret (rules', current_key)
    | _, _ => mret st
    end.

Fixpoint load_tags_lines (lines : list str)
    (st : list (str * list str) * option str)
    : M (list (str * list str) * option str) :=
  match lines with
  | [] => mret st
  | line :: rest => st' ← load_tags_line line st; load_tags_lines rest st'
  end.

(** The fallback reader, on the text of the file. *)
Definition parse_tags (raw : str) : M (list (str * list str)) :=
  st ← load_tags_lines (splitlines raw) ([], None); mret st.1.

Section TagLoader.

(** [Path(p).read_text(encoding="utf-8")], and [yaml.safe_load] when the
    module [yaml] could be imported, for a rule file that loads to a
    mapping from tags to lists of patterns. *)
Variable read_text : str → exn + str.
Variable yaml : option (str → exn + list (str * list str)).

Definition load_tags (tags_path : str) : M (list (str * list str)) :=
  raw ← lift (read_text tags_path);
  match yaml with
  | Some safe_load => lift (safe_load raw)
  | None => parse_tags raw
  end.

End TagLoader.

(** ** Vocabulary of the statements *)

(** The first character of [s] belongs to the class [[\u00A0\t ]]. *)
Definition head_blank (s : str) : bool :=
  match s with
  | c :: _ => is_blank c
  | [] => false
  end.

(** Every character of the class [[\u00A0\t ]] in [s] is a space that no
    other character of the class follows. *)
Fixpoint tidy (s : str) : bool :=
  match s with
  | [] => true
  | c :: s' =>
      (if is_blank c then (c =? Chr.SPACE) && negb (head_blank s') else true)
      && tidy s'
  end.

(** Neither end of [s] satisfies [p]. *)
Definition trimmed (p : char → bool) (s : str) : Prop :=
  (∀ c, head s = Some c → p c = false) ∧ (∀ c, last s = Some c → p c = false).

(** No carriage return, tab or non-breaking space, no two spaces in a row,
    no white space at either end. *)
Definition clean (v : str) : Prop :=
  (Chr.CR ∉ v) ∧ (Chr.TAB ∉ v) ∧ (Chr.NBSP ∉ v)
  ∧ (∀ i : nat, v !! i = Some Chr.SPACE → v !! S i ≠ Some Chr.SPACE)
  ∧ trimmed isspace v.

(** The pattern [p] matches the text [t]; the search for [p] in [t] ends in
    an exception that [except re.error] does not catch. *)
Definition matches (re_search : search_fn) (p t : str) : Prop :=
  ∃ m, re_search p t = inr (Some m).

Definition escapes (re_search : search_fn) (p t : str) : Prop :=
  ∃ e, re_search p t = inl e ∧ ∀ msg, e ≠ ReError msg.

(** Every pattern of the list is one the inner loop can cope with: the
    search for it ends in nothing that escapes, and when it matches, the
    match gives a value. *)
Definition well_behaved (re_search : search_fn) (text : str)
    (patterns : list str) : Prop :=
  ∀ p, p ∈ patterns →
    ¬ escapes re_search p text
    ∧ ∀ m, re_search p text = inr (Some m) → is_Some (match_value m).

(** The layout the fallback reader is written for: a tag line [tag:] at
    the left margin, then one indented line [- 'pattern'] per pattern. *)
Definition render_item (p : str) : str := py "  - '" ++ p ++ py "'".

Definition render_rule (r : str * list str) : list str :=
  (r.1 ++ py ":") :: (render_item <$> r.2).

Definition render_lines (rules : list (str * list str)) : list str :=
  rules ≫= render_rule.

Definition render_text (lines : list str) : str :=
  lines ≫= (fun line => line ++ [Chr.LF]).

(** A tag the layout can carry: not empty, no white space at its ends, no
    [#] in front, no colon and no line boundary. A pattern it can carry:
    no line boundary. *)
Definition plain_tag (t : str) : Prop :=
  t ≠ [] ∧ trimmed isspace t ∧ head t ≠ Some 35 ∧ (58 ∉ t)
  ∧ Forall (fun c => is_linebreak c = false) t.

Definition plain_pattern (p : str) : Prop :=
  Forall (fun c => is_linebreak c = false) p.

(** [well_behaved], decided by running the engine. *)
Definition well_behavedb (re_search : search_fn) (text : str)
    (patterns : list str) : bool :=
  forallb (fun p =>
             match re_search p text with
             | inl (ReError _) => true
             | inl _ => false
             | inr None => true
             | inr (Some m) => bool_decide (is_Some (match_value m))
             end) patterns.

(** The shape [re.sub] leaves for a class [cls] replaced by the character
    [x]: every character of the class in [s] is an [x] that no other
    character of the class follows. *)
Definition head_in (cls : char → bool) (s : str) : bool :=
  match s with
  | c :: _ => cls c
  | [] => false
  end.

Fixpoint tidy_by (cls : char → bool) (x : char) (s : str) : bool :=
  match s with
  | [] => true
  | c :: s' =>
      (if cls c then (c =? x) && negb (head_in cls s') else true)
      && tidy_by cls x s'
  end.

(** The class [[^A-Za-z0-9]] of [column_key]. *)
Definition not_alnum (c : char) : bool := negb (is_alnum_ascii c).

(** A key in snake case: lower-case ASCII letters, digits and underscores,
    no two underscores in a row, no underscore at either end. *)
Definition is_key_char (c : char) : bool :=
  is_lower_ascii c || is_digit_ascii c || (c =? Chr.UNDERSCORE).

Definition snake_key (k : str) : Prop :=
  Forall (fun c => is_key_char c = true) k
  ∧ (∀ i : nat, k !! i = Some Chr.UNDERSCORE → k !! S i ≠ Some Chr.UNDERSCORE)
  ∧ head k ≠ Some Chr.UNDERSCORE ∧ last k ≠ Some Chr.UNDERSCORE.

(** The row [main] builds for a document with text: the extraction
    returns tags, the file name and the time are added where the tags
    lack them, and the row is mapped from the result. *)
Definition row_of_document (re_search : search_fn) (columns : list str)
    (tag_rules : list (str * list str)) (d : document) (row : list str)
    : Prop :=
  ∃ l tags,
    extract_tags re_search (doc_text d) tag_rules = (l, inr tags)
    ∧ row = build_row columns
              (dict_setdefault (py "ingested_at") (doc_now d)
                 (dict_setdefault (py "source_file") (doc_name d) tags)).

(** The last warning of a run that wrote no row. *)
Definition no_rows_warning : log_record :=
  LogRecord WARNING
    (py "No rows to write " ++ [8212]
     ++ py " did not find supported files or matches.").

(** A row that holds something: one of its cells is not empty. Rows that
    end with such a row are stored as they are; an appended row without
    cells leaves nothing in the saved file, and the rows appended after the
    file is loaded again take its place. *)
Definition solid_row (r : list str) : Prop := ∃ c, c ∈ r ∧ c ≠ [].

Definition ends_solid (rows : list (list str)) : Prop :=
  ∃ r, last rows = Some r ∧ solid_row r.

(** ** Sample inputs *)

Module Sample.

(** A tender text with untidy white space. *)
Definition text : str :=
  py "Name of Work:" ++ [Chr.TAB] ++ py " Lakhwar   Hydro " ++ [Chr.CR; Chr.LF].

(** Both patterns of [project_name] match the text; of the patterns of
    [capacity_mw], the first does not match and the second is malformed. *)
Definition rules : list (str * list str) :=
  [ (py "project_name", [py "work:(?P<value>.+)"; py "name"]);
    (py "capacity_mw", [py "capacity: (?P<value>.+)"; py "("]) ].

(** A pattern whose group [value] is in one branch only. *)
Definition branch_rules : list (str * list str) :=
  [ (py "t", [py "(?P<value>a)|b"]) ].

(** A run: the schema, a row written by an earlier run, the documents of
    the folder (the second has no text), and the file systems that hold the
    earlier workbook at the output path or at the template path. *)
Definition out_path : str := py "renewable_output.xlsx".
Definition template_path : str := py "template.xlsx".
Definition master : str := py "Master".
Definition columns : list str := [py "Project Name"; py "Source File"].
Definition prior_row : list str := [py "Tehri"; py "old.pdf"].

Definition docs : list document :=
  [ Document (py "a.txt") text (py "2026-01-01T00:00:00");
    Document (py "blank.txt") (py "  ") (py "2026-01-01T00:00:01") ].

Definition fs_with_output : gmap str file :=
  {[ out_path := WorkbookFile [Worksheet master [columns; prior_row]] ]}.

Definition fs_with_template : gmap str file :=
  {[ template_path := WorkbookFile [Worksheet master [columns; prior_row]] ]}.

End Sample.

(** * Properties *)

(** ** Strings *)

Section StripLemmas.

Variable p : char → bool.

Lemma lstrip_by_head s c : head (lstrip_by p s) = Some c → p c = false.
Proof.
  induction s as [|d s IH]; simpl; [done|].
  destruct (p d) eqn:Hd; [done|].
  simpl. by intros [= <-].
Qed.

Lemma lstrip_by_fixed s :
  (∀ c, head s = Some c → p c = false) → lstrip_by p s = s.
Proof.
  destruct s as [|d s]; simpl; [done|].
  intros H. by rewrite (H d eq_refl).
Qed.

Lemma lstrip_by_suffix s : lstrip_by p s `suffix_of` s.
Proof.
  induction s as [|d s IH]; simpl; [done|].
  destruct (p d); [by apply suffix_cons_r | done].
Qed.

Lemma rstrip_by_cons c s :
  rstrip_by p (c :: s) =
    if bool_decide (rstrip_by p s = []) then (if p c then [] else [c])
    else c :: rstrip_by p s.
Proof. simpl. by destruct (rstrip_by p s). Qed.

Lemma rstrip_by_prefix s : rstrip_by p s `prefix_of` s.
Proof.
  induction s as [|d s IH]; [done|].
  rewrite rstrip_by_cons. case_bool_decide.
  - destruct (p d); [apply prefix_nil|]. apply prefix_cons, prefix_nil.
  - by apply prefix_cons.
Qed.

Lemma rstrip_by_head s c : head (rstrip_by p s) = Some c → head s = Some c.
Proof.
  destruct (rstrip_by_prefix s) as [k Hk]. intros H.
  rewrite Hk. by destruct (rstrip_by p s).
Qed.

Lemma rstrip_by_last s c : last (rstrip_by p s) = Some c → p c = false.
Proof.
  induction s as [|d s IH]; [done|].
  rewrite rstrip_by_cons. case_bool_decide as Hr.
  - destruct (p d) eqn:Hd; [done|]. by intros [= <-].
  - destruct (rstrip_by p s) as [|e r]; [done|]. apply IH.
Qed.

Lemma rstrip_by_fixed s :
  (∀ c, last s = Some c → p c = false) → rstrip_by p s = s.
Proof.
  induction s as [|d s IH]; [done|]. intros H.
  rewrite rstrip_by_cons. destruct s as [|e s].
  - simpl. by rewrite (H d eq_refl).
  - rewrite IH; [|intros c Hc; by apply H].
    by rewrite bool_decide_eq_false_2.
Qed.

Lemma strip_by_trimmed s : trimmed p (strip_by p s).
Proof.
  split; intros c Hc.
  - apply rstrip_by_head in Hc. by apply lstrip_by_head in Hc.
  - by apply rstrip_by_last in Hc.
Qed.

Lemma strip_by_fixed s : trimmed p s → strip_by p s = s.
Proof.
  intros [Hh Hl]. unfold strip_by.
  rewrite lstrip_by_fixed by done. by apply rstrip_by_fixed.
Qed.

Lemma strip_by_elem_of s c : c ∈ strip_by p s → c ∈ s.
Proof.
  unfold strip_by. intros Hc.
  destruct (rstrip_by_prefix (lstrip_by p s)) as [k1 Hk1].
  destruct (lstrip_by_suffix s) as [k2 Hk2].
  rewrite Hk2, Hk1. set_solver.
Qed.

End StripLemmas.

Lemma replace_char_no_old old new s :
  old ≠ new → old ∉ replace_char old new s.
Proof.
  intros Hne Hin. apply list_elem_of_fmap in Hin as (c & Hc & _).
  destruct (N.eqb_spec c old); congruence.
Qed.

Lemma replace_char_fixed old new s : old ∉ s → replace_char old new s = s.
Proof.
  induction s as [|c s IH]; [done|].
  intros [Hc Hs]%not_elem_of_cons. unfold replace_char in *.
  rewrite fmap_cons, IH by done. destruct (N.eqb_spec c old); congruence.
Qed.

Lemma sub_runs_from_elem_of cls repl b s c :
  c ∈ sub_runs_from cls repl b s → c ∈ repl ∨ c ∈ s.
Proof.
  revert b. induction s as [|d s IH]; intros b; simpl; [by right|].
  destruct (cls d); [destruct b|].
  - intros H. destruct (IH _ H); set_solver.
  - intros [H|H]%elem_of_app; [by left|]. destruct (IH _ H); set_solver.
  - intros [->|H]%elem_of_cons; [set_solver|]. destruct (IH _ H); set_solver.
Qed.

(** ** The shape [tidy] *)

#[local] Arguments is_blank : simpl never.

Lemma is_blank_space : is_blank Chr.SPACE = true.
Proof. reflexivity. Qed.

Lemma is_blank_cases c :
  is_blank c = true ↔ c = Chr.NBSP ∨ c = Chr.TAB ∨ c = Chr.SPACE.
Proof.
  unfold is_blank. rewrite !orb_true_iff, !N.eqb_eq. tauto.
Qed.

Lemma sub_runs_from_tidy b s :
  tidy (sub_runs_from is_blank [Chr.SPACE] b s) = true
  ∧ (b = true → head_blank (sub_runs_from is_blank [Chr.SPACE] b s) = false).
Proof.
  revert b. induction s as [|c s IH]; intros b; simpl; [done|].
  destruct (is_blank c) eqn:Hc; [destruct b|].
  - apply IH.
  - split; [|done]. destruct (IH true) as [Ht Hh].
    simpl. rewrite ?is_blank_space, Ht, Hh by done. reflexivity.
  - split; [|done]. destruct (IH false) as [Ht _].
    simpl. by rewrite Hc, Ht.
Qed.

Lemma tidy_sub_runs_fixed s :
  tidy s = true →
  sub_runs_from is_blank [Chr.SPACE] false s = s
  ∧ (head_blank s = false → sub_runs_from is_blank [Chr.SPACE] true s = s).
Proof.
  induction s as [|c s IH]; simpl; [done|].
  intros [Hc Hs]%andb_true_iff. destruct (IH Hs) as [IH1 IH2].
  destruct (is_blank c) eqn:Hb.
  - apply andb_true_iff in Hc as [->%N.eqb_eq Hh%negb_true_iff].
    split; [|done]. simpl. by rewrite IH2.
  - split; [|intros _]; by rewrite IH1.
Qed.

Lemma tidy_app_r k s : tidy (k ++ s) = true → tidy s = true.
Proof.
  induction k as [|c k IH]; simpl; [done|].
  intros [_ H]%andb_true_iff. by apply IH.
Qed.

Lemma head_blank_app_l s k :
  head_blank (s ++ k) = false → head_blank s = false.
Proof. by destruct s. Qed.

Lemma tidy_app_l s k : tidy (s ++ k) = true → tidy s = true.
Proof.
  induction s as [|c s IH]; simpl; [done|].
  intros [Hc H]%andb_true_iff. rewrite (IH H), andb_true_r.
  destruct (is_blank c); [|done].
  apply andb_true_iff in Hc as [-> Hh%negb_true_iff]. simpl.
  by rewrite (head_blank_app_l _ _ Hh).
Qed.

Lemma tidy_strip_by p s : tidy s = true → tidy (strip_by p s) = true.
Proof.
  unfold strip_by. intros Hs.
  destruct (rstrip_by_prefix p (lstrip_by p s)) as [k1 Hk1].
  destruct (lstrip_by_suffix p s) as [k2 Hk2].
  rewrite Hk2, Hk1 in Hs. by apply tidy_app_r, tidy_app_l in Hs.
Qed.

Lemma tidy_blank s c :
  tidy s = true → c ∈ s → is_blank c = true → c = Chr.SPACE.
Proof.
  induction s as [|d s IH]; simpl; [by intros _ ?%elem_of_nil|].
  intros [Hd Hs]%andb_true_iff [->|Hin]%elem_of_cons Hc; [|by apply IH].
  rewrite Hc in Hd. by apply andb_true_iff in Hd as [?%N.eqb_eq _].
Qed.

Lemma tidy_no_double_space s (i : nat) :
  tidy s = true → s !! i = Some Chr.SPACE → s !! S i ≠ Some Chr.SPACE.
Proof.
  revert i. induction s as [|d s IH]; intros i; simpl; [done|].
  intros [Hd Hs]%andb_true_iff. destruct i as [|i]; simpl.
  - intros [= ->]. rewrite is_blank_space in Hd.
    apply andb_true_iff in Hd as [_ Hh%negb_true_iff].
    destruct s as [|e s]; simpl in *; [done|].
    intros [= ->]. by rewrite is_blank_space in Hh.
  - by apply IH.
Qed.

Lemma tidy_intro s :
  (∀ c, c ∈ s → is_blank c = true → c = Chr.SPACE) →
  (∀ i : nat, s !! i = Some Chr.SPACE → s !! S i ≠ Some Chr.SPACE) →
  tidy s = true.
Proof.
  induction s as [|d s IH]; simpl; [done|]. intros H1 H2.
  rewrite IH, andb_true_r.
  - destruct (is_blank d) eqn:Hd; [|done].
    assert (d = Chr.SPACE) as -> by (apply H1; [set_solver|done]).
    rewrite N.eqb_refl. simpl. apply negb_true_iff.
    destruct s as [|e s]; simpl; [done|].
    destruct (is_blank e) eqn:He; [|done].
    assert (e = Chr.SPACE) as -> by (apply H1; [set_solver|done]).
    by destruct (H2 0%nat).
  - intros c Hc. apply H1. set_solver.
  - intros i. apply (H2 (S i)).
Qed.

(** ** [normalize_space] *)

Lemma normalize_space_clean s : clean (normalize_space s).
Proof.
  unfold normalize_space, strip, sub_runs.
  set (u := replace_char Chr.CR Chr.LF s).
  set (w := sub_runs_from is_blank [Chr.SPACE] false u).
  assert (Chr.CR ∉ w) as Hcr.
  { intros [H|H]%sub_runs_from_elem_of.
    - by apply list_elem_of_singleton in H.
    - by apply replace_char_no_old in H. }
  assert (tidy (strip_by isspace w) = true) as Ht
    by apply tidy_strip_by, sub_runs_from_tidy.
  repeat split.
  - intros H%strip_by_elem_of. done.
  - intros H. by apply (tidy_blank _ _ Ht) in H.
  - intros H. by apply (tidy_blank _ _ Ht) in H.
  - intros i. by apply tidy_no_double_space.
  - apply strip_by_trimmed.
  - apply strip_by_trimmed.
Qed.

Lemma clean_fixed v : clean v → normalize_space v = v.
Proof.
  intros (Hcr & Htab & Hnbsp & Hdbl & Htrim).
  unfold normalize_space, strip, sub_runs.
  rewrite replace_char_fixed by done.
  assert (tidy v = true) as Ht.
  { apply tidy_intro; [|done].
    intros c Hc [->| [->| ->]]%is_blank_cases; done. }
  destruct (tidy_sub_runs_fixed v Ht) as [-> _].
  by apply strip_by_fixed.
Qed.

(** C5. The text normaliser is idempotent: normalising a string that is
    already normalised (carriage returns replaced by newlines, every run of
    non-breaking spaces, tabs and spaces collapsed into one space, white
    space trimmed at both ends) changes nothing. *)
Theorem normalize_space_idempotent (s : str) :
  normalize_space (normalize_space s) = normalize_space s.
Proof. apply clean_fixed, normalize_space_clean. Qed.

(** ** The monad *)

Lemma bind_inr {A B} (m : M A) (f : A → M B) l y :
  m ≫= f = (l, inr y) →
  ∃ l1 x l2, m = (l1, inr x) ∧ f x = (l2, inr y) ∧ l = l1 ++ l2.
Proof.
  unfold mbind, M_bind, bind. destruct m as [l1 [e|x]]; [done|].
  destruct (f x) as [l2 r] eqn:Hf. intros [= <- ->]. eauto 6.
Qed.

Lemma bind_ret_l {A B} (x : A) (f : A → M B) : mret x ≫= f = f x.
Proof.
  unfold mbind, M_bind, bind, mret, M_ret, ret. by destruct (f x).
Qed.

Lemma ret_inr {A} (x y : A) (l : list log_record) :
  (mret x : M A) = (l, inr y) → l = [] ∧ x = y.
Proof. by intros [= <- <-]. Qed.

(** ** The extractor *)

Section ExtractorProps.

Variable re_search : search_fn.

Lemma try_patterns_nil tag text out :
  try_patterns re_search tag text [] out = mret out.
Proof. reflexivity. Qed.

Lemma try_patterns_cons tag text pat rest out :
  try_patterns re_search tag text (pat :: rest) out =
    match re_search pat text with
    | inl (ReError e) =>
        logging_warning (py "Bad regex for " ++ tag ++ py ": " ++ e) ;;
        try_patterns re_search tag text rest out
    | inl other => raise other
    | inr None => try_patterns re_search tag text rest out
    | inr (Some m) =>
        v ← call_normalize_space (match_value m);
        mret (<[tag := v]> out)
    end.
Proof. reflexivity. Qed.

Lemma try_patterns_match tag text pat rest out m :
  re_search pat text = inr (Some m) →
  try_patterns re_search tag text (pat :: rest) out =
    (v ← call_normalize_space (match_value m); mret (<[tag := v]> out)).
Proof. intros H. by rewrite try_patterns_cons, H. Qed.

Lemma try_patterns_none tag text pat rest out :
  re_search pat text = inr None →
  try_patterns re_search tag text (pat :: rest) out =
    try_patterns re_search tag text rest out.
Proof. intros H. by rewrite try_patterns_cons, H. Qed.

(** A malformed pattern costs a warning and the loop goes on with the
    patterns that follow. *)
Lemma try_patterns_malformed tag text pat rest out e :
  re_search pat text = inl (ReError e) →
  try_patterns re_search tag text (pat :: rest) out =
    (logging_warning (py "Bad regex for " ++ tag ++ py ": " ++ e) ;;
     try_patterns re_search tag text rest out).
Proof. intros H. by rewrite try_patterns_cons, H. Qed.

(** What a completed inner loop leaves in [out]: nothing new, or the
    normalised value of a matching pattern of the list under [tag]. *)
Lemma try_patterns_inr tag text patterns out l out' :
  try_patterns re_search tag text patterns out = (l, inr out') →
  out' = out
  ∨ ∃ p m v, p ∈ patterns ∧ re_search p text = inr (Some m)
      ∧ match_value m = Some v ∧ out' = <[tag := normalize_space v]> out.
Proof.
  revert l. induction patterns as [|pat rest IH]; intros l.
  - intros [_ <-]%ret_inr. by left.
  - rewrite try_patterns_cons.
    destruct (re_search pat text) as [e|[m|]] eqn:Hs.
    + destruct e; try done.
      intros (l1 & [] & l2 & _ & H & _)%bind_inr.
      destruct (IH _ H) as [?|(p & m & v & Hp & Hrest)]; [by left|].
      right. exists p, m, v. split; [by right|done].
    + intros (l1 & v & l2 & Hv & [_ <-]%ret_inr & _)%bind_inr.
      right. exists pat, m. destruct (match_value m) as [w|]; [|done].
      apply ret_inr in Hv as [_ <-]. exists w. split; [by left|done].
    + intros H. destruct (IH _ H) as [?|(p & m & v & Hp & Hrest)]; [by left|].
      right. exists p, m, v. split; [by right|done].
Qed.

Lemma try_patterns_lookup_ne tag text patterns out l out' k :
  try_patterns re_search tag text patterns out = (l, inr out') →
  k ≠ tag → out' !! k = out !! k.
Proof.
  intros [->|(p & m & v & _ & _ & _ & ->)]%try_patterns_inr Hk; [done|].
  by rewrite lookup_insert_ne.
Qed.

Lemma extract_loop_cons text tag patterns rest out :
  extract_loop re_search text ((tag, patterns) :: rest) out =
    (out' ← try_patterns re_search tag text patterns out;
     extract_loop re_search text rest out').
Proof. reflexivity. Qed.

Lemma extract_loop_lookup_notin text items out l out' k :
  extract_loop re_search text items out = (l, inr out') →
  k ∉ items.*1 → out' !! k = out !! k.
Proof.
  revert out l. induction items as [|[tag patterns] rest IH]; intros out l.
  - by intros [_ <-]%ret_inr.
  - rewrite extract_loop_cons, fmap_cons.
    intros (l1 & out1 & l2 & H1 & H2 & _)%bind_inr [Hk Hr]%not_elem_of_cons.
    rewrite (IH _ _ H2 Hr). by eapply try_patterns_lookup_ne.
Qed.

(** An invariant of [out] that every inner loop keeps is kept by the
    extraction. *)
Lemma extract_loop_invariant (I : gmap str str → Prop) text items out l out' :
  (∀ tag patterns o l o', (tag, patterns) ∈ items → I o →
     try_patterns re_search tag text patterns o = (l, inr o') → I o') →
  I out →
  extract_loop re_search text items out = (l, inr out') → I out'.
Proof.
  revert out l. induction items as [|[tag patterns] rest IH]; intros out l Hstep.
  - by intros ? [_ <-]%ret_inr.
  - rewrite extract_loop_cons.
    intros Hout (l1 & out1 & l2 & H1 & H2 & _)%bind_inr.
    eapply IH; [|by eapply Hstep; [left|..]|done].
    intros ??????. eapply Hstep. by right.
Qed.

End ExtractorProps.

Section ExtractorLoops.

Variable re_search : search_fn.

Lemma try_patterns_unmatched tag text patterns out l out' :
  (∀ p, p ∈ patterns → ¬ matches re_search p text) →
  try_patterns re_search tag text patterns out = (l, inr out') → out' = out.
Proof.
  intros Hno [->|(p & m & v & Hp & Hm & _)]%try_patterns_inr; [done|].
  destruct (Hno p Hp). by exists m.
Qed.

Lemma try_patterns_returns tag text patterns out :
  (∀ p, p ∈ patterns → ¬ matches re_search p text) →
  (∀ p, p ∈ patterns → ¬ escapes re_search p text) →
  ∃ l, try_patterns re_search tag text patterns out = (l, inr out).
Proof.
  induction patterns as [|pat rest IH]; intros Hm He.
  - by exists [].
  - destruct IH as [l Hl].
    { intros p Hp. apply Hm. by right. }
    { intros p Hp. apply He. by right. }
    rewrite try_patterns_cons.
    destruct (re_search pat text) as [e|[m|]] eqn:Hs.
    + destruct e as [msg| | | | |];
        try (destruct (He pat); [by left|]; eexists; by split).
      rewrite Hl. by eexists.
    + destruct (Hm pat); [by left|]. by exists m.
    + by exists l.
Qed.

Lemma extract_loop_lookup_in text items out l out' tag patterns :
  NoDup items.*1 → (tag, patterns) ∈ items →
  extract_loop re_search text items out = (l, inr out') →
  ∃ o l1 o1, try_patterns re_search tag text patterns o = (l1, inr o1)
    ∧ out' !! tag = o1 !! tag.
Proof.
  revert out l. induction items as [|[t ps] rest IH]; intros out l.
  - by intros _ ?%elem_of_nil.
  - rewrite extract_loop_cons, fmap_cons.
    intros [Ht Hnd]%NoDup_cons Hin (l1 & out1 & l2 & H1 & H2 & _)%bind_inr.
    apply elem_of_cons in Hin as [[= <- <-]|Hin].
    + exists out, l1, out1. split; [done|].
      by eapply extract_loop_lookup_notin.
    + by eapply IH.
Qed.

End ExtractorLoops.

Lemma bind_inr_intro {A B} (m : M A) (f : A → M B) l1 x l2 y :
  m = (l1, inr x) → f x = (l2, inr y) → m ≫= f = (l1 ++ l2, inr y).
Proof. intros -> Hf. unfold mbind, M_bind, bind. by rewrite Hf. Qed.

Section ExtractorReturns.

Variable re_search : search_fn.

Lemma try_patterns_total tag text patterns out :
  well_behaved re_search text patterns →
  ∃ l out', try_patterns re_search tag text patterns out = (l, inr out').
Proof.
  induction patterns as [|pat rest IH]; intros Hwb.
  - by exists [], out.
  - destruct IH as (l & out' & Hl).
    { intros p Hp. apply Hwb. by right. }
    destruct (Hwb pat) as [Hesc Hval]; [by left|].
    rewrite try_patterns_cons.
    destruct (re_search pat text) as [e|[m|]] eqn:Hs.
    + destruct e as [msg| | | | |];
        try (destruct Hesc; eexists; by split).
      rewrite Hl. by eexists _, _.
    + destruct (Hval m eq_refl) as [v ->]. by eexists _, _.
    + by exists l, out'.
Qed.

Lemma extract_loop_total text items out :
  (∀ tag patterns, (tag, patterns) ∈ items → well_behaved re_search text patterns) →
  ∃ l out', extract_loop re_search text items out = (l, inr out').
Proof.
  revert out. induction items as [|[tag patterns] rest IH]; intros out Hwb.
  - by exists [], out.
  - destruct (try_patterns_total tag text patterns out) as (l1 & out1 & H1).
    { eapply Hwb. by left. }
    destruct (IH out1) as (l2 & out2 & H2).
    { intros t ps Hin. eapply Hwb. by right. }
    exists (l1 ++ l2), out2. rewrite extract_loop_cons.
    by eapply bind_inr_intro.
Qed.

(** X3. The extraction returns a mapping when, for every pattern of the
    rules, the engine raises nothing but [re.error] and a match gives a
    value: the group [value], when the pattern has one, took part in the
    match. *)
Lemma extract_tags_returns text tag_rules :
  (∀ tag patterns, (tag, patterns) ∈ tag_rules →
     well_behaved re_search (normalize_space text) patterns) →
  ∃ l out, extract_tags re_search text tag_rules = (l, inr out).
Proof. apply extract_loop_total. Qed.

End ExtractorReturns.

(** C4. First match wins. When the patterns of a tag are [P1; P2] and both
    match the normalised text (the rules being the items of a dictionary, no
    tag occurs twice), the inner loop stores what [P1] gives (the
    text of its group [value] if it has one, the whole match otherwise,
    normalised); it does so whatever the engine would answer for [P2], which
    is therefore never tried; and in the mapping the extractor returns, the
    tag holds the normalised value of [P1]. *)
Theorem first_match_wins (re_search : search_fn) (text : str)
    (tag_rules : list (str * list str)) (tag P1 P2 : str)
    (m1 m2 : match_obj) :
  NoDup tag_rules.*1 →
  (tag, [P1; P2]) ∈ tag_rules →
  re_search P1 (normalize_space text) = inr (Some m1) →
  re_search P2 (normalize_space text) = inr (Some m2) →
  (∀ out, try_patterns re_search tag (normalize_space text) [P1; P2] out =
            (v ← call_normalize_space (match_value m1);
             mret (<[tag := v]> out)))
  ∧ (∀ (re_search' : search_fn) out,
       re_search' P1 (normalize_space text)
         = re_search P1 (normalize_space text) →
       try_patterns re_search' tag (normalize_space text) [P1; P2] out
         = try_patterns re_search tag (normalize_space text) [P1; P2] out)
  ∧ (∀ l out, extract_tags re_search text tag_rules = (l, inr out) →
       ∃ v1, match_value m1 = Some v1
         ∧ out !! tag = Some (normalize_space v1)).
Proof.
  intros Hnd Hin H1 H2. split; [|split].
  - intros out. by apply try_patterns_match.
  - intros re' out Hre. rewrite H1 in Hre.
    by rewrite !(try_patterns_match _ _ _ _ _ _ m1).
  - intros l out Hex. unfold extract_tags in Hex.
    destruct (extract_loop_lookup_in _ _ _ _ _ _ _ _ Hnd Hin Hex)
      as (o & l1 & o1 & Hto & ->).
    rewrite (try_patterns_match _ _ _ _ _ _ m1 H1) in Hto.
    apply bind_inr in Hto as (? & v & ? & Hv & [_ <-]%ret_inr & _).
    destruct (match_value m1) as [v1|]; [|done].
    apply ret_inr in Hv as [_ <-]. exists v1.
    by rewrite lookup_insert_eq.
Qed.

Lemma first_match_wins_witness :
  extract_tags Fragment.re_search Sample.text Sample.rules
    = ([LogRecord WARNING
          (py "Bad regex for capacity_mw: missing ), unterminated subpattern at position 0")],
       inr {[ py "project_name" := py "Lakhwar Hydro" ]})
  ∧ ({[ py "project_name" := py "Lakhwar Hydro" ]} : gmap str str)
      !! py "project_name" = Some (py "Lakhwar Hydro").
Proof.
  split; [vm_compute; reflexivity|].
  pose proof (first_match_wins Fragment.re_search Sample.text Sample.rules
    (py "project_name") (py "work:(?P<value>.+)") (py "name")
    (MatchObj (py "Work: Lakhwar Hydro")
       {[ py "value" := Some (py " Lakhwar Hydro") ]})
    (MatchObj (py "Name") ∅)) as H.
  destruct H as (_ & _ & H).
  - apply (bool_decide_unpack _). vm_compute. reflexivity.
  - left.
  - vm_compute. reflexivity.
  - vm_compute. reflexivity.
  - edestruct H as (v1 & Hv1 & Hout); [vm_compute; reflexivity|].
    injection Hv1 as <-. exact Hout.
Defined.

(** C7. Absence on no match. When no pattern of the tag [X] matches the
    normalised text, the mapping the extractor returns has no entry for [X],
    not even an empty one; and the loop over the patterns of [X] ends
    normally, with the mapping as it found it, unless the engine fails with
    something else than [re.error]. *)
Theorem absent_on_no_match (re_search : search_fn) (text : str)
    (tag_rules : list (str * list str)) (X : str) :
  (∀ patterns p, (X, patterns) ∈ tag_rules → p ∈ patterns →
     ¬ matches re_search p (normalize_space text)) →
  (∀ l out, extract_tags re_search text tag_rules = (l, inr out) →
     out !! X = None)
  ∧ (∀ patterns out, (X, patterns) ∈ tag_rules →
       (∀ p, p ∈ patterns → ¬ escapes re_search p (normalize_space text)) →
       ∃ l, try_patterns re_search X (normalize_space text) patterns out
              = (l, inr out)).
Proof.
  intros Hno. split.
  - intros l out. unfold extract_tags.
    apply (extract_loop_invariant _ (fun o => o !! X = None)); [|done].
    intros tag patterns o l' o' Hin Ho Hto.
    destruct (decide (tag = X)) as [->|Hne].
    + by rewrite (try_patterns_unmatched _ _ _ _ _ _ _
                    (fun p => Hno patterns p Hin) Hto).
    + by rewrite (try_patterns_lookup_ne _ _ _ _ _ _ _ _ Hto).
  - intros patterns out Hin Hesc.
    apply try_patterns_returns; [|done]. intros p. by apply Hno.
Qed.

Lemma absent_on_no_match_witness :
  extract_tags Fragment.re_search Sample.text Sample.rules
    = ([LogRecord WARNING
          (py "Bad regex for capacity_mw: missing ), unterminated subpattern at position 0")],
       inr {[ py "project_name" := py "Lakhwar Hydro" ]})
  ∧ ({[ py "project_name" := py "Lakhwar Hydro" ]} : gmap str str)
      !! py "capacity_mw" = None.
Proof.
  split; [vm_compute; reflexivity|].
  eapply (absent_on_no_match Fragment.re_search Sample.text Sample.rules
            (py "capacity_mw")).
  - intros patterns p Hin Hp [m Hm].
    apply elem_of_cons in Hin as [Hin|Hin];
      [vm_compute in Hin; discriminate Hin|].
    apply list_elem_of_singleton in Hin. injection Hin as ->.
    apply elem_of_cons in Hp as [->|Hp];
      [vm_compute in Hm; discriminate Hm|].
    apply list_elem_of_singleton in Hp as ->.
    vm_compute in Hm. discriminate Hm.
  - vm_compute. reflexivity.
Defined.

(** C9. Every value of the mapping the extractor returns is a fixed point
    of the normaliser: it holds no carriage return, tab or non-breaking
    space, no two spaces in a row, and no white space at either end. *)
Theorem extracted_values_normalized (re_search : search_fn) (text : str)
    (tag_rules : list (str * list str)) (l : list log_record)
    (out : gmap str str) (k v : str) :
  extract_tags re_search text tag_rules = (l, inr out) →
  out !! k = Some v →
  normalize_space v = v ∧ clean v.
Proof.
  intros Hex Hk.
  assert (map_Forall (fun _ w => clean w) out) as Hall.
  { revert Hex. unfold extract_tags.
    apply (extract_loop_invariant _ (map_Forall (fun _ w => clean w)));
      [|apply map_Forall_empty].
    intros tag patterns o l' o' _ Ho
      [->|(p & m & w & _ & _ & _ & ->)]%try_patterns_inr; [done|].
    apply map_Forall_insert_2; [apply normalize_space_clean|done]. }
  specialize (Hall _ _ Hk). split; [by apply clean_fixed|done].
Qed.

Lemma extracted_values_normalized_witness :
  normalize_space (py "Lakhwar Hydro") = py "Lakhwar Hydro"
  ∧ clean (py "Lakhwar Hydro").
Proof.
  apply (extracted_values_normalized Fragment.re_search Sample.text
           Sample.rules
           [LogRecord WARNING
              (py "Bad regex for capacity_mw: missing ), unterminated subpattern at position 0")]
           {[ py "project_name" := py "Lakhwar Hydro" ]}
           (py "project_name")).
  - vm_compute. reflexivity.
  - vm_compute. reflexivity.
Defined.

(** C3, at the input where it fails. The pattern has a group [value] in
    its first branch and matches [b] by its second: [groupdict()] holds
    [None] for [value], the normaliser is called on [None], and the
    extraction ends in [AttributeError] instead of a mapping. *)
Theorem extract_tags_unset_value_raises :
  Fragment.search (py "(?P<value>a)|b") (py "b")
    = Some (inr (Some (MatchObj (py "b") {[ py "value" := None ]})))
  ∧ extract_tags Fragment.re_search (py "b") Sample.branch_rules
      = ([], inl AttributeError).
Proof. split; vm_compute; reflexivity. Qed.

(** ** The schema mapper *)

Lemma sub_runs_from_elem_of_cls cls repl b s c :
  c ∈ sub_runs_from cls repl b s → c ∈ repl ∨ cls c = false.
Proof.
  revert b. induction s as [|d s IH]; intros b; simpl;
    [by intros ?%elem_of_nil|].
  destruct (cls d) eqn:Hd; [destruct b|].
  - apply IH.
  - intros [H|H]%elem_of_app; [by left|]. by eapply IH.
  - intros [->|H]%elem_of_cons; [by right|]. by eapply IH.
Qed.

(** What [column_key] lowers holds ASCII letters, digits and underscores
    only. *)
Lemma column_key_sub_chars col c :
  c ∈ sub_runs (fun c => negb (is_alnum_ascii c)) (py "_") col →
  is_alnum_ascii c = true ∨ c = Chr.UNDERSCORE.
Proof.
  intros [H|H]%sub_runs_from_elem_of_cls.
  - right. by apply list_elem_of_singleton in H.
  - left. by apply negb_false_iff.
Qed.

Lemma build_row_loop_app columns tag_values row :
  build_row_loop columns tag_values row =
    row ++ ((fun col => cell_value col tag_values) <$> columns).
Proof.
  revert row. induction columns as [|col rest IH]; intros row; simpl.
  - by rewrite app_nil_r.
  - by rewrite IH, <- app_assoc.
Qed.

Lemma build_row_lookup columns tag_values (i : nat) col :
  columns !! i = Some col →
  build_row columns tag_values !! i = Some (cell_value col tag_values).
Proof.
  intros Hi. unfold build_row. rewrite build_row_loop_app. simpl.
  by rewrite list_lookup_fmap, Hi.
Qed.

Lemma build_row_eq columns tag_values :
  build_row columns tag_values
    = (fun col => cell_value col tag_values) <$> columns.
Proof. unfold build_row. by rewrite build_row_loop_app. Qed.

(** C6. Row width. For every schema and every mapping of extracted tags,
    the empty one included, [build_row] returns a row as long as the schema,
    holding the value of each column at the position of the column. *)
Theorem build_row_width (columns : list str) (tag_values : gmap str str) :
  length (build_row columns tag_values) = length columns
  ∧ build_row columns tag_values
      = (fun col => cell_value col tag_values) <$> columns.
Proof.
  unfold build_row. rewrite build_row_loop_app. simpl.
  by rewrite length_fmap.
Qed.

(** The alias loop when no entry applies, and when the key is an alternate
    spelling of one tag only. *)
Lemma alias_loop_miss key tag_values table filled :
  (∀ tag aka, (tag, aka) ∈ table → key ∈ aka → tag_values !! tag = None) →
  alias_loop key tag_values table filled = filled.
Proof.
  induction table as [|[t a] rest IH]; intros H; simpl; [done|].
  assert (alias_loop key tag_values rest filled = filled) as Hrest.
  { apply IH. intros tag aka Hin. apply H. by right. }
  case_bool_decide as Ha; [|done].
  rewrite (H t a); [done|by left|done].
Qed.

Lemma alias_loop_hit key tag_values table filled tag aka :
  (tag, aka) ∈ table → key ∈ aka →
  (∀ tag' aka', (tag', aka') ∈ table → key ∈ aka' → tag' = tag) →
  alias_loop key tag_values table filled
    = default filled (tag_values !! tag).
Proof.
  intros Hin Hkey.
  induction table as [|[t a] rest IH]; intros Huniq;
    [by apply elem_of_nil in Hin|].
  simpl. case_bool_decide as Ha.
  - assert (t = tag) as -> by (eapply Huniq; [left|done]).
    destruct (tag_values !! tag) as [v|] eqn:Hv; [done|].
    simpl. apply alias_loop_miss. intros t' a' Hin' Hk'.
    assert (t' = tag) as -> by (eapply Huniq; [by right|done]). done.
  - apply elem_of_cons in Hin as [[= <- <-]|Hin]; [done|].
    apply IH; [done|]. intros t' a' Hin' Hk'.
    eapply Huniq; [by right|done].
Qed.

(** In the table of the program no alternate spelling is listed under two
    tags. *)
Lemma aliases_unambiguous key tag aka tag' aka' :
  (tag, aka) ∈ aliases → key ∈ aka →
  (tag', aka') ∈ aliases → key ∈ aka' → tag' = tag.
Proof.
  assert (Forall (fun e : str * list str =>
            Forall (fun k : str =>
              Forall (fun e' : str * list str => k ∈ e'.2 → e'.1 = e.1) aliases)
              e.2) aliases) as H.
  { apply (bool_decide_unpack _). vm_compute. reflexivity. }
  intros Hin Hkey Hin' Hkey'.
  rewrite Forall_forall in H. specialize (H _ Hin). simpl in H.
  rewrite Forall_forall in H. specialize (H _ Hkey).
  rewrite Forall_forall in H. by apply (H _ Hin').
Qed.

Example column_key_storage :
  column_key (py "Storage Capacity (MWh)") = py "storage_capacity_mwh".
Proof. vm_compute. reflexivity. Qed.

Example build_row_scenario_2 :
  build_row [py "Project Name"; py "Capacity (MW)"]
    {[ py "project_name" := py "Lakhwar"; py "capacity_mw" := py "100" ]}
  = [py "Lakhwar"; py "100"].
Proof. vm_compute. reflexivity. Qed.

Example build_row_scenario_4 : build_row [py "Unknown Column"] ∅ = [[]].
Proof. vm_compute. reflexivity. Qed.

(** C1, as stated, fails: the key [storage_capacity_mwh] of the column is
    the tag of an alias entry, not one of its alternate spellings, and the
    row holds the empty string. *)
Lemma alias_scenario_counterexample :
  build_row [py "Storage Capacity (MWh)"] {[ py "bess_mwh" := py "50" ]}
    ≠ [py "50"].
Proof. vm_compute. discriminate. Qed.

(** C1, amended. When the key of a column is not a key of the extracted
    tags and is listed among the alternate spellings of an alias entry, the
    row holds what the tags hold under the tag of that entry (the empty
    string when they hold nothing): the schema [BESS MWh] with the tags
    [{storage_capacity_mwh: 50}] gives the row [50], and the schema
    [Storage Capacity (MWh)] with the tags [{bess_mwh: 50}] gives the row of
    one empty string. *)
Theorem alias_resolution (columns : list str) (tag_values : gmap str str)
    (i : nat) (col tag : str) (aka : list str) :
  columns !! i = Some col →
  tag_values !! column_key col = None →
  (tag, aka) ∈ aliases →
  column_key col ∈ aka →
  build_row columns tag_values !! i = Some (default [] (tag_values !! tag))
  ∧ build_row [py "BESS MWh"] {[ py "storage_capacity_mwh" := py "50" ]}
      = [py "50"]
  ∧ build_row [py "Storage Capacity (MWh)"] {[ py "bess_mwh" := py "50" ]}
      = [[]].
Proof.
  intros Hi Hkey Hin Haka. split; [|split; vm_compute; reflexivity].
  rewrite (build_row_lookup _ _ _ _ Hi). f_equal.
  unfold cell_value. rewrite Hkey.
  apply (alias_loop_hit _ _ _ _ tag aka); [done..|].
  intros tag' aka' Hin' Haka'. by eapply aliases_unambiguous.
Qed.

Lemma alias_resolution_witness :
  build_row [py "BESS MWh"] {[ py "storage_capacity_mwh" := py "50" ]}
    !! 0%nat = Some (py "50").
Proof.
  refine (proj1 (alias_resolution [py "BESS MWh"]
            {[ py "storage_capacity_mwh" := py "50" ]} 0 (py "BESS MWh")
            (py "storage_capacity_mwh") [py "bess_mwh"; py "storage_mwh"]
            _ _ _ _)).
  - reflexivity.
  - vm_compute. reflexivity.
  - apply (bool_decide_unpack _). vm_compute. reflexivity.
  - apply (bool_decide_unpack _). vm_compute. reflexivity.
Defined.

(** C8. Alias fallback order. A column whose key is a key of the extracted
    tags gets the value stored under that key, whether or not the alias
    table could resolve the column too; the alias loop decides the value
    only when the key is not among the tags. *)
Theorem direct_key_precedence (columns : list str)
    (tag_values : gmap str str) (i : nat) (col : str) :
  columns !! i = Some col →
  (∀ v, tag_values !! column_key col = Some v →
     build_row columns tag_values !! i = Some v)
  ∧ (tag_values !! column_key col = None →
       build_row columns tag_values !! i
         = Some (alias_loop (column_key col) tag_values aliases [])).
Proof.
  intros Hi. rewrite (build_row_lookup _ _ _ _ Hi). unfold cell_value.
  split; [intros v Hv|intros Hv]; by rewrite Hv.
Qed.

Lemma direct_key_precedence_witness :
  alias_loop (py "emd")
    {[ py "emd" := py "1"; py "emd_amount_rs" := py "2" ]} aliases []
    = py "2"
  ∧ build_row [py "EMD"]
      {[ py "emd" := py "1"; py "emd_amount_rs" := py "2" ]} !! 0%nat
    = Some (py "1").
Proof.
  split; [vm_compute; reflexivity|].
  apply (proj1 (direct_key_precedence [py "EMD"]
           {[ py "emd" := py "1"; py "emd_amount_rs" := py "2" ]}
           0 (py "EMD") eq_refl)).
  vm_compute. reflexivity.
Defined.

(** ** The schema loader *)

(** C10. A schema source that parses to a JSON object is loaded without
    failure and without a log record, whatever keys it lacks: the column
    list is the empty list when [columns] is missing and the sheet name is
    [Master] when [detected_master_sheet] is missing. *)
Theorem load_columns_defaults (read_text : str → exn + str)
    (json_loads : str → exn + json) (columns_path raw : str)
    (members : gmap str json) :
  read_text columns_path = inr raw →
  json_loads raw = inr (JObject members) →
  ∃ sheet columns,
    load_columns read_text json_loads columns_path
      = ([], inr (sheet, columns))
    ∧ columns = default (JArray []) (members !! py "columns")
    ∧ sheet = default (JString (py "Master"))
                (members !! py "detected_master_sheet")
    ∧ (members !! py "columns" = None → columns = JArray [])
    ∧ (members !! py "detected_master_sheet" = None →
         sheet = JString (py "Master")).
Proof.
  intros Hr Hj. eexists _, _. split; [|split; [reflexivity|]].
  - unfold load_columns, lift, mbind, M_bind, bind.
    rewrite Hr. cbv beta iota. rewrite Hj. reflexivity.
  - split; [reflexivity|].
    split; intros H; unfold dict_get; by rewrite H.
Qed.

Lemma load_columns_defaults_witness :
  load_columns (fun _ => inr (py "{}")) (fun _ => inr (JObject ∅))
    (py "renewable_columns_master.json")
  = ([], inr (JString (py "Master"), JArray [])).
Proof.
  destruct (load_columns_defaults (fun _ => inr (py "{}"))
              (fun _ => inr (JObject ∅)) (py "renewable_columns_master.json")
              (py "{}") ∅ eq_refl eq_refl)
    as (sheet & columns & -> & -> & -> & _).
  reflexivity.
Defined.

(** ** Workbooks *)

Lemma max_row_ge_1 ws : (max_row ws <? 1)%nat = false.
Proof. apply Nat.ltb_ge. unfold max_row. apply Nat.le_max_l. Qed.

Lemma foldl_ws_append ws rows :
  foldl (fun w r => ws_append r w) ws rows
    = Worksheet (title ws) (ws_rows ws ++ rows).
Proof.
  revert ws. induction rows as [|r rows IH]; intros [t rs]; simpl.
  - by rewrite app_nil_r.
  - rewrite IH. simpl. by rewrite <- app_assoc.
Qed.

Lemma wb_modify_ext name f g wb :
  (∀ ws, f ws = g ws) → wb_modify name f wb = wb_modify name g wb.
Proof.
  intros Hfg. induction wb as [|ws wb IH]; simpl; [done|].
  by rewrite Hfg, IH.
Qed.

Lemma wb_modify_id name f wb :
  (∀ ws, f ws = ws) → wb_modify name f wb = wb.
Proof.
  intros Hf. induction wb as [|ws wb IH]; simpl; [done|].
  rewrite Hf, IH. by case_decide.
Qed.

Lemma wb_get_title name wb ws : wb_get name wb = Some ws → title ws = name.
Proof.
  induction wb as [|w wb IH]; simpl; [done|].
  case_decide; [by intros [= <-]|done].
Qed.

Lemma wb_get_app_new name wb rows :
  wb_get name wb = None →
  wb_get name (wb ++ [Worksheet name rows]) = Some (Worksheet name rows).
Proof.
  induction wb as [|w wb IH]; simpl.
  - intros _. by rewrite decide_True.
  - case_decide; [done|]. apply IH.
Qed.

(** What [ensure_workbook] does, in one expression: the workbook saved at
    the output path is built from the template, or from nothing. *)
Lemma ensure_workbook_eq out_path template master_sheet columns fs :
  ensure_workbook out_path template master_sheet columns fs =
    match usable_template fs template with
    | Some t =>
        match fs !! t with
        | Some (WorkbookFile wb) =>
            ([], inr (<[out_path := WorkbookFile
                         (match wb_get master_sheet wb with
                          | None => wb ++ [Worksheet master_sheet [columns]]
                          | Some _ => wb
                          end)]> fs))
        | Some (OtherFile _) => ([], inl InvalidFileException)
        | None => ([], inl FileNotFoundError)
        end
    | None =>
        ([], inr (<[out_path := WorkbookFile
                     [Worksheet master_sheet [columns]]]> fs))
    end.
Proof.
  unfold ensure_workbook, load_workbook.
  destruct (usable_template fs template) as [t|]; [|done].
  destruct (fs !! t) as [[wb|c]|]; [|done..].
  rewrite bind_ret_l.
  destruct (wb_get master_sheet wb) as [ws|]; [|done].
  by rewrite max_row_ge_1.
Qed.

Lemma append_rows_eq out_path master_sheet rows fs wb ws :
  fs !! out_path = Some (WorkbookFile wb) →
  wb_get master_sheet wb = Some ws →
  append_rows out_path master_sheet rows fs =
    ([], inr (<[out_path := WorkbookFile
                 (wb_modify master_sheet
                    (fun w => Worksheet (title w) (ws_rows w ++ rows)) wb)]> fs)).
Proof.
  intros Hfs Hws. unfold append_rows, load_workbook. rewrite Hfs.
  rewrite bind_ret_l, Hws.
  by rewrite (wb_modify_ext _ _ _ _ (fun w => foldl_ws_append w rows)).
Qed.

(** ** The driver *)

Section DriverProps.

Variable re_search : search_fn.

Lemma process_docs_cons p rest columns tag_rules rows_to_write :
  process_docs re_search (p :: rest) columns tag_rules rows_to_write =
    (logging_info (py "Parsing " ++ doc_name p) ;;
     if bool_decide (strip (doc_text p) = []) then
       logging_warning (py "No text extracted from " ++ doc_name p) ;;
       process_docs re_search rest columns tag_rules rows_to_write
     else
       tags ← extract_tags re_search (doc_text p) tag_rules;
       process_docs re_search rest columns tag_rules
         (rows_to_write ++
          [build_row columns
             (dict_setdefault (py "ingested_at") (doc_now p)
                (dict_setdefault (py "source_file") (doc_name p) tags))])).
Proof. reflexivity. Qed.

(** A completed loop has added one row per document with text, each as
    wide as the schema. *)
Lemma process_docs_inr docs columns tag_rules acc l rows :
  process_docs re_search docs columns tag_rules acc = (l, inr rows) →
  ∃ new, rows = acc ++ new
    ∧ length new = length (filter (fun d => strip (doc_text d) ≠ []) docs)
    ∧ Forall (fun r => length r = length columns) new.
Proof.
  revert acc l. induction docs as [|p rest IH]; intros acc l.
  - intros [_ <-]%ret_inr. exists []. by rewrite app_nil_r.
  - rewrite process_docs_cons.
    intros (l1 & [] & l2 & _ & H & _)%bind_inr.
    case_bool_decide as Hblank.
    + apply bind_inr in H as (l3 & [] & l4 & _ & H & _).
      destruct (IH _ _ H) as (new & -> & Hlen & Hw).
      exists new. by rewrite filter_cons_False by (by intros []).
    + apply bind_inr in H as (l3 & tags & l4 & _ & H & _).
      destruct (IH _ _ H) as (new & -> & Hlen & Hw).
      eexists (_ :: new). rewrite <- app_assoc. split; [done|].
      rewrite filter_cons_True by done. simpl. split; [by rewrite Hlen|].
      constructor; [by rewrite build_row_eq, length_fmap|done].
Qed.

Lemma run_inr out_path template master_sheet columns tag_rules docs fs l fs' :
  run re_search out_path template master_sheet columns tag_rules docs fs
    = (l, inr fs') →
  ∃ l1 fs1 l2 rows,
    ensure_workbook out_path template master_sheet columns fs = (l1, inr fs1)
    ∧ process_docs re_search docs columns tag_rules [] = (l2, inr rows)
    ∧ match rows with
      | [] => fs' = fs1
      | _ :: _ =>
          ∃ l3, append_rows out_path master_sheet rows fs1 = (l3, inr fs')
      end.
Proof.
  unfold run.
  intros (? & [] & ? & _ & H & _)%bind_inr.
  apply bind_inr in H as (l1 & fs1 & ? & He & H & _).
  apply bind_inr in H as (l2 & rows & ? & Hp & H & _).
  exists l1, fs1, l2, rows. split; [done|]. split; [done|].
  destruct rows as [|r rows].
  - by apply bind_inr in H as (? & [] & ? & _ & [_ <-]%ret_inr & _).
  - apply bind_inr in H as (l3 & fs2 & ? & Ha & H & _).
    apply bind_inr in H as (? & [] & ? & _ & [_ <-]%ret_inr & _).
    by exists l3.
Qed.

End DriverProps.

(** C2, as stated, fails: without a template, [ensure_workbook] saves a
    fresh workbook over an output workbook that exists, and the row an
    earlier run wrote is gone. *)
Lemma ensure_overwrites_output_counterexample :
  ensure_workbook Sample.out_path None Sample.master Sample.columns
    Sample.fs_with_output
  = ([], inr {[ Sample.out_path :=
                  WorkbookFile [Worksheet Sample.master [Sample.columns]] ]})
  ∧ ¬ (∃ wb ws,
         ({[ Sample.out_path :=
               WorkbookFile [Worksheet Sample.master [Sample.columns]] ]}
            : gmap str file) !! Sample.out_path = Some (WorkbookFile wb)
         ∧ wb_get Sample.master wb = Some ws
         ∧ Sample.prior_row ∈ ws_rows ws).
Proof.
  split; [vm_compute; reflexivity|].
  intros (wb & ws & Hwb & Hws & Hrow).
  rewrite lookup_singleton_eq in Hwb. injection Hwb as <-.
  vm_compute in Hws. injection Hws as <-.
  apply list_elem_of_singleton in Hrow. vm_compute in Hrow.
  discriminate Hrow.
Qed.

(** C2, amended. [ensure_workbook] is idempotent and touches no file but
    the output, which it builds without reading it: from the template, when
    one is given and exists, with the sheet and its header row added if the
    template lacks the sheet and with nothing changed if the template has
    the sheet with rows; from a fresh workbook that holds the header row
    otherwise. When the sheet ends with a row that holds something,
    [append_rows], if it returns, has added its rows after the rows of the
    sheet; and a run that ends normally leaves in the sheet the rows
    [ensure_workbook] put there followed by one row per document with text,
    each as wide as the schema. *)
Theorem ensure_then_append (out_path : str) (template : option str)
    (master_sheet : str) (columns : list str) (fs fs1 : gmap str file)
    (l : list log_record) :
  ensure_workbook out_path template master_sheet columns fs = (l, inr fs1) →
  ensure_workbook out_path template master_sheet columns fs1 = ([], inr fs1)
  ∧ (∀ p, p ≠ out_path → fs1 !! p = fs !! p)
  ∧ ∃ base ws,
      fs1 !! out_path = Some (WorkbookFile base)
      ∧ wb_get master_sheet base = Some ws
      ∧ (usable_template fs template = None →
           base = [Worksheet master_sheet [columns]])
      ∧ (∀ t wb, usable_template fs template = Some t →
           fs !! t = Some (WorkbookFile wb) →
           (wb_get master_sheet wb = None →
              base = wb ++ [Worksheet master_sheet [columns]])
           ∧ (∀ ws0, wb_get master_sheet wb = Some ws0 →
                ws_rows ws0 ≠ [] → base = wb))
      ∧ (ends_solid (ws_rows ws) →
         ∀ rows l2 fs2,
           append_rows out_path master_sheet rows fs1 = (l2, inr fs2) →
           l2 = []
           ∧ fs2 = <[out_path := WorkbookFile
                       (wb_modify master_sheet
                          (fun w => Worksheet (title w) (ws_rows w ++ rows))
                          base)]> fs1)
      ∧ (∀ (re_search : search_fn) tag_rules docs l' fs',
           run re_search out_path template master_sheet columns tag_rules
             docs fs = (l', inr fs') →
           ∃ rows,
             length rows
               = length (filter (fun d => strip (doc_text d) ≠ []) docs)
             ∧ Forall (fun r => length r = length columns) rows
             ∧ fs' !! out_path =
                 Some (WorkbookFile
                         (wb_modify master_sheet
                            (fun w => Worksheet (title w) (ws_rows w ++ rows))
                            base))
             ∧ (∀ p, p ≠ out_path → fs' !! p = fs !! p)).
Proof.
  intros Hens.
  (* the workbook saved at the output path *)
  assert (∃ base ws, fs1 = <[out_path := WorkbookFile base]> fs
            ∧ wb_get master_sheet base = Some ws
            ∧ ensure_workbook out_path template master_sheet columns fs1
                = ([], inr fs1)
            ∧ (usable_template fs template = None →
                 base = [Worksheet master_sheet [columns]])
            ∧ (∀ t wb, usable_template fs template = Some t →
                 fs !! t = Some (WorkbookFile wb) →
                 base = match wb_get master_sheet wb with
                        | None => wb ++ [Worksheet master_sheet [columns]]
                        | Some _ => wb
                        end))
    as (base & ws & -> & Hws & Hidem & Hnone & Hsome).
  { rewrite ensure_workbook_eq in Hens.
    destruct (usable_template fs template) as [t|] eqn:Hu.
    - destruct (fs !! t) as [[wb|c]|] eqn:Ht; [|done..].
      injection Hens as <- <-.
      set (base := match wb_get master_sheet wb with
                   | None => wb ++ [Worksheet master_sheet [columns]]
                   | Some _ => wb
                   end).
      assert (∃ ws, wb_get master_sheet base = Some ws) as [ws Hws].
      { subst base. destruct (wb_get master_sheet wb) as [w|] eqn:Hw;
          [by exists w|]. eexists. by apply wb_get_app_new. }
      exists base, ws. split; [done|]. split; [done|].
      split; [|split; [done|]].
      + rewrite ensure_workbook_eq.
        destruct template as [t'|]; [|done]. simpl in Hu.
        case_bool_decide as Hex; [|done]. injection Hu as ->.
        simpl. rewrite bool_decide_eq_true_2.
        * destruct (decide (t = out_path)) as [->|Hne].
          -- rewrite lookup_insert_eq, Hws. by rewrite insert_insert_eq.
          -- rewrite lookup_insert_ne, Ht by done. fold base.
             by rewrite insert_insert_eq.
        * destruct (decide (t = out_path)) as [->|Hne].
          -- by rewrite lookup_insert_eq.
          -- by rewrite lookup_insert_ne.
      + intros t' wb' [= <-]. rewrite Ht. by intros [= <-].
    - injection Hens as <- <-.
      exists [Worksheet master_sheet [columns]], (Worksheet master_sheet [columns]).
      split; [done|]. split; [simpl; by rewrite decide_True|].
      split; [|split; [done|done]].
      rewrite ensure_workbook_eq.
      destruct template as [t'|]; simpl in *.
      + case_bool_decide as Hex; [done|].
        destruct (decide (t' = out_path)) as [->|Hne].
        * rewrite bool_decide_eq_true_2 by (by rewrite lookup_insert_eq).
          rewrite lookup_insert_eq. simpl. rewrite decide_True by done.
          by rewrite insert_insert_eq.
        * rewrite bool_decide_eq_false_2 by (by rewrite lookup_insert_ne).
          by rewrite insert_insert_eq.
      + by rewrite insert_insert_eq. }
  split; [done|]. split; [intros p Hp; by rewrite lookup_insert_ne|].
  exists base, ws. split; [by rewrite lookup_insert_eq|]. split; [done|].
  split; [done|]. split; [|split].
  - intros t wb Hu Ht. rewrite (Hsome _ _ Hu Ht). split.
    + by intros ->.
    + by intros ws0 -> _.
  - intros _ rows l2 fs2 Ha.
    erewrite append_rows_eq in Ha; [|by rewrite lookup_insert_eq|done].
    by injection Ha as <- <-.
  - intros re_search tag_rules docs l' fs' Hrun.
    apply run_inr in Hrun as (l1 & fs1 & l2 & rows & He & Hp & Hfin).
    rewrite Hens in He. injection He as <- <-.
    apply process_docs_inr in Hp as (new & -> & Hlen & Hw). simpl in Hfin.
    exists new. split; [done|]. split; [done|].
    destruct new as [|r new].
    + subst fs'. rewrite lookup_insert_eq. split.
      * rewrite wb_modify_id; [done|]. intros [t rs]. simpl.
        by rewrite app_nil_r.
      * intros p Hp. by rewrite lookup_insert_ne.
    + destruct Hfin as [l3 Ha].
      erewrite append_rows_eq in Ha; [|by rewrite lookup_insert_eq|done].
      injection Ha as _ <-. rewrite lookup_insert_eq. split; [done|].
      intros p Hp. by rewrite !lookup_insert_ne.
Qed.

Lemma ensure_then_append_witness :
  ensure_workbook Sample.out_path (Some Sample.template_path) Sample.master
    Sample.columns Sample.fs_with_template
  = ([], inr (<[Sample.out_path :=
                  WorkbookFile
                    [Worksheet Sample.master
                       [Sample.columns; Sample.prior_row]]]>
                Sample.fs_with_template))
  ∧ ensure_workbook Sample.out_path (Some Sample.template_path) Sample.master
      Sample.columns
      (<[Sample.out_path :=
           WorkbookFile
             [Worksheet Sample.master [Sample.columns; Sample.prior_row]]]>
         Sample.fs_with_template)
    = ([], inr (<[Sample.out_path :=
                    WorkbookFile
                      [Worksheet Sample.master
                         [Sample.columns; Sample.prior_row]]]>
                  Sample.fs_with_template)).
Proof.
  split; [vm_compute; reflexivity|].
  apply (ensure_then_append Sample.out_path (Some Sample.template_path)
           Sample.master Sample.columns Sample.fs_with_template _ []).
  vm_compute. reflexivity.
Defined.

(** The run on the sample folder: the row of the template is kept and one
    row is added for the one document with text. *)
Example run_sample :
  snd (run Fragment.re_search Sample.out_path (Some Sample.template_path)
         Sample.master Sample.columns Sample.rules Sample.docs
         Sample.fs_with_template)
  = inr (<[Sample.out_path :=
             WorkbookFile
               [Worksheet Sample.master
                  [Sample.columns; Sample.prior_row;
                   [py "Lakhwar Hydro"; py "a.txt"]]]]>
           Sample.fs_with_template).
Proof. vm_compute. reflexivity. Qed.

(** A malformed first pattern costs a warning and the second pattern still
    gives the value. *)
Example malformed_then_match :
  extract_tags Fragment.re_search (py "EMD: Rs 5000")
    [(py "emd_amount_rs", [py "("; py "Rs (?P<value>.+)"])]
  = ([LogRecord WARNING
        (py "Bad regex for emd_amount_rs: missing ), unterminated subpattern at position 0")],
     inr {[ py "emd_amount_rs" := py "5000" ]}).
Proof. vm_compute. reflexivity. Qed.

(** * Further properties *)

(** ** The normaliser *)

(** X1. The fixed points of the normaliser are the clean strings: no
    carriage return, tab or non-breaking space, no two spaces in a row, no
    white space at either end. *)
Theorem normalize_space_fixed_iff (v : str) :
  normalize_space v = v ↔ clean v.
Proof.
  split.
  - intros <-. apply normalize_space_clean.
  - apply clean_fixed.
Qed.

Section StripNil.

Variable p : char → bool.

Lemma lstrip_by_split s :
  ∃ k, s = k ++ lstrip_by p s ∧ Forall (fun c => p c = true) k.
Proof.
  induction s as [|c s (k & Hk & Hall)]; simpl; [by exists []|].
  destruct (p c) eqn:Hc; [|by exists []].
  exists (c :: k). split; [by rewrite Hk at 1|by constructor].
Qed.

Lemma rstrip_by_nil_iff s :
  rstrip_by p s = [] ↔ Forall (fun c => p c = true) s.
Proof.
  induction s as [|c s IH]; [done|].
  rewrite rstrip_by_cons, Forall_cons, <- IH.
  case_bool_decide as Hr; [destruct (p c)|]; intuition congruence.
Qed.

Lemma strip_by_nil_iff s :
  strip_by p s = [] ↔ Forall (fun c => p c = true) s.
Proof.
  unfold strip_by. rewrite rstrip_by_nil_iff.
  destruct (lstrip_by_split s) as (k & Hk & Hall).
  rewrite Hk at 2. rewrite Forall_app. tauto.
Qed.

End StripNil.

Lemma sub_runs_from_keeps cls repl b s c :
  c ∈ s → cls c = false → c ∈ sub_runs_from cls repl b s.
Proof.
  intros Hin Hc. revert b.
  induction s as [|d s IH]; intros b; [by apply elem_of_nil in Hin|].
  simpl. apply elem_of_cons in Hin as [<-|Hin].
  - rewrite Hc. by left.
  - destruct (cls d); [destruct b|]; [by apply IH| |right; by apply IH].
    apply elem_of_app. right. by apply IH.
Qed.

Lemma is_blank_isspace c : is_blank c = true → isspace c = true.
Proof. intros [->|[->| ->]]%is_blank_cases; reflexivity. Qed.

(** X2. The normaliser gives the empty string exactly for the texts that
    [strip] empties, the texts made of white space only: the documents
    [main] skips are those whose normalised text is empty. *)
Theorem normalize_space_empty_iff (s : str) :
  normalize_space s = [] ↔ strip s = [].
Proof.
  unfold normalize_space, strip, sub_runs. rewrite !strip_by_nil_iff.
  rewrite !Forall_forall. split; intros H c Hc.
  - destruct (is_blank c) eqn:Hb; [by apply is_blank_isspace|].
    destruct (N.eqb_spec c Chr.CR) as [->|Hcr]; [done|].
    apply H, sub_runs_from_keeps; [|done].
    apply list_elem_of_fmap. exists c.
    split; [|done]. by destruct (N.eqb_spec c Chr.CR).
  - apply sub_runs_from_elem_of in Hc as [Hc|Hc].
    + by apply list_elem_of_singleton in Hc as ->.
    + apply list_elem_of_fmap in Hc as (d & -> & Hd).
      destruct (d =? Chr.CR); [done|by apply H].
Qed.

(** ** The extractor *)

Lemma well_behavedb_sound re_search text patterns :
  well_behavedb re_search text patterns = true →
  well_behaved re_search text patterns.
Proof.
  unfold well_behavedb, well_behaved. rewrite forallb_forall.
  intros H p Hp%list_elem_of_In. specialize (H p Hp). split.
  - intros (e & He & Hne). rewrite He in H.
    destruct e; try done. by destruct (Hne msg).
  - intros m Hm. rewrite Hm in H. by apply bool_decide_eq_true in H.
Qed.

Lemma extract_tags_returns_witness :
  ∃ l out, extract_tags Fragment.re_search Sample.text Sample.rules
             = (l, inr out).
Proof.
  apply extract_tags_returns. intros tag patterns Hin.
  assert (Forall (fun r : str * list str =>
            well_behavedb Fragment.re_search (normalize_space Sample.text)
              r.2 = true) Sample.rules) as H.
  { apply (bool_decide_unpack _). vm_compute. reflexivity. }
  rewrite Forall_forall in H. apply well_behavedb_sound, (H _ Hin).
Defined.

(** X4. Whatever the returned mapping holds comes from the rules: a tag
    with a value has patterns in the rules, one of them matches the
    normalised text, and the value is the normalised value of that
    match. *)
Theorem extracted_value_origin (re_search : search_fn) (text : str)
    (tag_rules : list (str * list str)) (l : list log_record)
    (out : gmap str str) (k v : str) :
  extract_tags re_search text tag_rules = (l, inr out) →
  out !! k = Some v →
  ∃ patterns p m w,
    (k, patterns) ∈ tag_rules ∧ p ∈ patterns
    ∧ re_search p (normalize_space text) = inr (Some m)
    ∧ match_value m = Some w ∧ v = normalize_space w.
Proof.
  unfold extract_tags. intros Hex.
  set (I := fun o : gmap str str => ∀ k v, o !! k = Some v →
              ∃ patterns p m w,
                (k, patterns) ∈ tag_rules ∧ p ∈ patterns
                ∧ re_search p (normalize_space text) = inr (Some m)
                ∧ match_value m = Some w ∧ v = normalize_space w).
  assert (I out) as HI; [|by apply HI].
  eapply (extract_loop_invariant re_search I); [| |exact Hex].
  - intros tag patterns o l' o' Hin Ho
      [->|(p & m & w & Hp & Hm & Hw & ->)]%try_patterns_inr k' v';
      [apply Ho|].
    destruct (decide (tag = k')) as [->|Hne].
    + rewrite lookup_insert_eq. intros [= <-]. by exists patterns, p, m, w.
    + rewrite lookup_insert_ne by done. apply Ho.
  - intros k' v' H. by rewrite lookup_empty in H.
Qed.

Lemma extracted_value_origin_witness :
  ∃ patterns p m w,
    (py "project_name", patterns) ∈ Sample.rules ∧ p ∈ patterns
    ∧ Fragment.re_search p (normalize_space Sample.text) = inr (Some m)
    ∧ match_value m = Some w ∧ py "Lakhwar Hydro" = normalize_space w.
Proof.
  apply (extracted_value_origin Fragment.re_search Sample.text Sample.rules
           [LogRecord WARNING
              (py "Bad regex for capacity_mw: missing ), unterminated subpattern at position 0")]
           {[ py "project_name" := py "Lakhwar Hydro" ]}
           (py "project_name")).
  - vm_compute. reflexivity.
  - vm_compute. reflexivity.
Defined.

Lemma try_patterns_skip re_search tag text pre p post out m l out' :
  (∀ q, q ∈ pre → ¬ matches re_search q text) →
  re_search p text = inr (Some m) →
  try_patterns re_search tag text (pre ++ p :: post) out = (l, inr out') →
  ∃ v, match_value m = Some v ∧ out' = <[tag := normalize_space v]> out.
Proof.
  intros Hpre Hm. revert l.
  induction pre as [|q pre IH]; intros l; simpl app.
  - rewrite (try_patterns_match _ _ _ _ _ _ m Hm).
    intros (? & v & ? & Hv & [_ <-]%ret_inr & _)%bind_inr.
    destruct (match_value m) as [w|]; [|done].
    apply ret_inr in Hv as [_ <-]. by exists w.
  - rewrite try_patterns_cons.
    assert (∀ q', q' ∈ pre → ¬ matches re_search q' text) as Hpre'.
    { intros q' Hq'. apply Hpre. by right. }
    destruct (re_search q text) as [e|[mq|]] eqn:Hq.
    + destruct e; try done.
      intros (? & [] & ? & _ & H & _)%bind_inr. by eapply IH.
    + destruct (Hpre q); [by left|]. by exists mq.
    + by apply IH.
Qed.

(** X5. The value of a tag comes from the first of its patterns that
    matches, wherever it stands in the list: the patterns before it that do
    not match, malformed ones included, are passed over, and the patterns
    after it play no part. *)
Theorem first_matching_pattern_wins (re_search : search_fn) (text : str)
    (tag_rules : list (str * list str)) (tag : str)
    (pre post : list str) (p : str) (m : match_obj)
    (l : list log_record) (out : gmap str str) :
  NoDup tag_rules.*1 →
  (tag, pre ++ p :: post) ∈ tag_rules →
  (∀ q, q ∈ pre → ¬ matches re_search q (normalize_space text)) →
  re_search p (normalize_space text) = inr (Some m) →
  extract_tags re_search text tag_rules = (l, inr out) →
  ∃ v, match_value m = Some v ∧ out !! tag = Some (normalize_space v).
Proof.
  intros Hnd Hin Hpre Hm Hex. unfold extract_tags in Hex.
  destruct (extract_loop_lookup_in _ _ _ _ _ _ _ _ Hnd Hin Hex)
    as (o & l1 & o1 & Hto & ->).
  destruct (try_patterns_skip _ _ _ _ _ _ _ _ _ _ Hpre Hm Hto)
    as (v & Hv & ->).
  exists v. by rewrite lookup_insert_eq.
Qed.

Lemma first_matching_pattern_wins_witness :
  ∃ v, match_value (MatchObj (py "Rs 5000")
                      {[ py "value" := Some (py "5000") ]}) = Some v
    ∧ ({[ py "emd_amount_rs" := py "5000" ]} : gmap str str)
        !! py "emd_amount_rs" = Some (normalize_space v).
Proof.
  apply (first_matching_pattern_wins Fragment.re_search (py "EMD: Rs 5000")
           [(py "emd_amount_rs",
             [py "("; py "zzz"; py "Rs (?P<value>.+)"; py "EMD"])]
           (py "emd_amount_rs") [py "("; py "zzz"] [py "EMD"]
           (py "Rs (?P<value>.+)") _
           [LogRecord WARNING
              (py "Bad regex for emd_amount_rs: missing ), unterminated subpattern at position 0")]).
  - apply (bool_decide_unpack _). vm_compute. reflexivity.
  - left.
  - intros q Hq [m Hm].
    apply elem_of_cons in Hq as [->|Hq];
      [vm_compute in Hm; discriminate Hm|].
    apply list_elem_of_singleton in Hq as ->.
    vm_compute in Hm. discriminate Hm.
  - vm_compute. reflexivity.
  - vm_compute. reflexivity.
Defined.

(** The effect of the inner loop on the mapping does not depend on the
    mapping: it stores one value under the tag, or nothing. *)
Lemma try_patterns_uniform re_search tag text patterns out l out' :
  try_patterns re_search tag text patterns out = (l, inr out') →
  ∃ ov : option str,
    ∀ o, try_patterns re_search tag text patterns o
           = (l, inr (match ov with Some v => <[tag := v]> o | None => o end)).
Proof.
  revert l. induction patterns as [|pat rest IH]; intros l.
  - intros [-> _]%ret_inr. by exists None.
  - rewrite try_patterns_cons.
    destruct (re_search pat text) as [e|[m|]] eqn:Hs.
    + destruct e; try done.
      intros (l1 & [] & l2 & Hw & H & ->)%bind_inr.
      destruct (IH _ H) as [ov Hov]. exists ov. intros o.
      rewrite try_patterns_cons, Hs. by eapply bind_inr_intro.
    + intros (? & v & ? & Hv & [-> _]%ret_inr & ->)%bind_inr.
      destruct (match_value m) as [w|] eqn:Hw; [|done].
      apply ret_inr in Hv as [-> <-]. exists (Some (normalize_space w)).
      intros o. by rewrite try_patterns_cons, Hs, Hw.
    + intros H. destruct (IH _ H) as [ov Hov]. exists ov. intros o.
      by rewrite try_patterns_cons, Hs.
Qed.

Lemma extract_loop_perm re_search text items items' :
  items ≡ₚ items' → NoDup items.*1 →
  ∀ out l out',
    extract_loop re_search text items out = (l, inr out') →
    ∃ l', extract_loop re_search text items' out = (l', inr out') ∧ l ≡ₚ l'.
Proof.
  induction 1 as [|[tag ps] a b Hab IH|[t1 p1] [t2 p2] a|a b c Hab IH1 Hbc IH2];
    intros Hnd out l out'.
  - intros H. by exists l.
  - rewrite !extract_loop_cons.
    intros (l1 & o1 & l2 & H1 & H2 & ->)%bind_inr.
    rewrite fmap_cons in Hnd. apply NoDup_cons in Hnd as [_ Hnd].
    destruct (IH Hnd _ _ _ H2) as (l2' & H2' & Hl).
    exists (l1 ++ l2'). split; [by eapply bind_inr_intro|by rewrite Hl].
  - rewrite !extract_loop_cons.
    intros (l2 & o2 & l' & H2 & H & ->)%bind_inr.
    rewrite extract_loop_cons in H.
    apply bind_inr in H as (l1 & o1 & la & H1 & Ha & ->).
    destruct (try_patterns_uniform _ _ _ _ _ _ _ H2) as [ov2 Hu2].
    destruct (try_patterns_uniform _ _ _ _ _ _ _ H1) as [ov1 Hu1].
    rewrite Hu2 in H2. injection H2 as <-. rewrite Hu1 in H1. injection H1 as <-.
    assert (t2 ≠ t1) as Hne.
    { rewrite !fmap_cons in Hnd. apply NoDup_cons in Hnd as [Hnd _].
      simpl in Hnd. intros ->. apply Hnd. by left. }
    exists (l1 ++ l2 ++ la). split.
    + eapply bind_inr_intro; [apply Hu1|].
      rewrite extract_loop_cons. eapply bind_inr_intro; [apply Hu2|].
      destruct ov1, ov2; try done. by rewrite insert_insert_ne.
    + rewrite !app_assoc. f_equiv. apply Permutation_app_comm.
  - intros H. destruct (IH1 Hnd _ _ _ H) as (l1 & H1 & Hl1).
    assert (NoDup b.*1) as Hnd' by (by rewrite <- Hab).
    destruct (IH2 Hnd' _ _ _ H1) as (l2 & H2 & Hl2).
    exists l2. split; [done|by etrans].
Qed.

(** X6. The order of the rules does not change what is extracted: rules
    with the same items in another order, when the extraction returns, give
    the same mapping, and the same warnings in another order. *)
Theorem extract_tags_order_independent (re_search : search_fn) (text : str)
    (tag_rules tag_rules' : list (str * list str))
    (l : list log_record) (out : gmap str str) :
  NoDup tag_rules.*1 →
  tag_rules ≡ₚ tag_rules' →
  extract_tags re_search text tag_rules = (l, inr out) →
  ∃ l', extract_tags re_search text tag_rules' = (l', inr out) ∧ l ≡ₚ l'.
Proof.
  intros Hnd Hperm. unfold extract_tags. by apply extract_loop_perm.
Qed.

Lemma extract_tags_order_independent_witness :
  ∃ l', extract_tags Fragment.re_search Sample.text (reverse Sample.rules)
          = (l', inr {[ py "project_name" := py "Lakhwar Hydro" ]})
    ∧ [LogRecord WARNING
         (py "Bad regex for capacity_mw: missing ), unterminated subpattern at position 0")]
      ≡ₚ l'.
Proof.
  apply (extract_tags_order_independent Fragment.re_search Sample.text
           Sample.rules).
  - apply (bool_decide_unpack _). vm_compute. reflexivity.
  - symmetry. apply reverse_Permutation.
  - vm_compute. reflexivity.
Defined.

(** ** The shape left by a substitution *)

Section TidyBy.

Variable cls : char → bool.
Variable x : char.
Hypothesis cls_x : cls x = true.

Lemma sub_runs_from_tidy_by b s :
  tidy_by cls x (sub_runs_from cls [x] b s) = true
  ∧ (b = true → head_in cls (sub_runs_from cls [x] b s) = false).
Proof.
  revert b. induction s as [|c s IH]; intros b; simpl; [done|].
  destruct (cls c) eqn:Hc; [destruct b|].
  - apply IH.
  - split; [|done]. destruct (IH true) as [Ht Hh].
    simpl. rewrite cls_x, N.eqb_refl, Ht, Hh by done. reflexivity.
  - split; [|done]. destruct (IH false) as [Ht _].
    simpl. by rewrite Hc, Ht.
Qed.

Lemma tidy_by_sub_runs_fixed s :
  tidy_by cls x s = true →
  sub_runs_from cls [x] false s = s
  ∧ (head_in cls s = false → sub_runs_from cls [x] true s = s).
Proof.
  induction s as [|c s IH]; simpl; [done|].
  intros [Hc Hs]%andb_true_iff. destruct (IH Hs) as [IH1 IH2].
  destruct (cls c) eqn:Hb.
  - apply andb_true_iff in Hc as [->%N.eqb_eq Hh%negb_true_iff].
    split; [|done]. simpl. by rewrite IH2.
  - split; [|intros _]; by rewrite IH1.
Qed.

Lemma tidy_by_app_r k s : tidy_by cls x (k ++ s) = true → tidy_by cls x s = true.
Proof.
  induction k as [|c k IH]; simpl; [done|].
  intros [_ H]%andb_true_iff. by apply IH.
Qed.

Lemma tidy_by_app_l s k : tidy_by cls x (s ++ k) = true → tidy_by cls x s = true.
Proof.
  induction s as [|c s IH]; simpl; [done|].
  intros [Hc H]%andb_true_iff. rewrite (IH H), andb_true_r.
  destruct (cls c); [|done].
  apply andb_true_iff in Hc as [-> Hh%negb_true_iff]. simpl.
  destruct s; [done|]. simpl in *. by rewrite Hh.
Qed.

Lemma tidy_by_strip_by p s :
  tidy_by cls x s = true → tidy_by cls x (strip_by p s) = true.
Proof.
  unfold strip_by. intros Hs.
  destruct (rstrip_by_prefix p (lstrip_by p s)) as [k1 Hk1].
  destruct (lstrip_by_suffix p s) as [k2 Hk2].
  rewrite Hk2, Hk1 in Hs. by apply tidy_by_app_r, tidy_by_app_l in Hs.
Qed.

Lemma tidy_by_no_double s (i : nat) :
  tidy_by cls x s = true → s !! i = Some x → s !! S i ≠ Some x.
Proof.
  revert i. induction s as [|d s IH]; intros i; simpl; [done|].
  intros [Hd Hs]%andb_true_iff. destruct i as [|i]; simpl.
  - intros [= ->]. rewrite cls_x in Hd.
    apply andb_true_iff in Hd as [_ Hh%negb_true_iff].
    destruct s as [|e s]; simpl in *; [done|].
    intros [= ->]. by rewrite cls_x in Hh.
  - by apply IH.
Qed.

Lemma tidy_by_intro s :
  (∀ c, c ∈ s → cls c = true → c = x) →
  (∀ i : nat, s !! i = Some x → s !! S i ≠ Some x) →
  tidy_by cls x s = true.
Proof.
  induction s as [|d s IH]; simpl; [done|]. intros H1 H2.
  rewrite IH, andb_true_r.
  - destruct (cls d) eqn:Hd; [|done].
    assert (d = x) as -> by (apply H1; [by left|done]).
    rewrite N.eqb_refl. simpl. apply negb_true_iff.
    destruct s as [|e s]; simpl; [done|].
    destruct (cls e) eqn:He; [|done].
    assert (e = x) as -> by (apply H1; [right; by left|done]).
    by destruct (H2 0%nat).
  - intros c Hc. apply H1. by right.
  - intros i. apply (H2 (S i)).
Qed.

End TidyBy.

(** ** Column keys *)

Ltac cases_leb :=
  repeat match goal with
         | |- context [(?a <=? ?b)%N] => destruct (N.leb_spec a b)
         | |- context [(?a =? ?b)%N] => destruct (N.eqb_spec a b)
         end.

Lemma is_alnum_lower_char c :
  is_alnum_ascii (lower_char c) = is_alnum_ascii c.
Proof.
  unfold is_alnum_ascii, lower_char, is_upper_ascii, is_lower_ascii,
    is_digit_ascii.
  destruct (N.leb_spec 65 c), (N.leb_spec c 90); simpl; cases_leb;
    simpl; try reflexivity; lia.
Qed.

Lemma is_upper_lower_char c : is_upper_ascii (lower_char c) = false.
Proof.
  unfold lower_char, is_upper_ascii.
  destruct (N.leb_spec 65 c), (N.leb_spec c 90); simpl; cases_leb;
    simpl; try reflexivity; lia.
Qed.

Lemma is_key_char_cases c :
  is_key_char c = true →
  is_upper_ascii c = false
  ∧ (not_alnum c = true → c = Chr.UNDERSCORE).
Proof.
  unfold is_key_char, not_alnum, is_alnum_ascii, is_upper_ascii,
    is_lower_ascii, is_digit_ascii, Chr.UNDERSCORE.
  cases_leb; simpl; try done; try lia; intros _; split; try done; lia.
Qed.

Lemma not_alnum_lower_char c : not_alnum (lower_char c) = not_alnum c.
Proof. unfold not_alnum. by rewrite is_alnum_lower_char. Qed.

Lemma sub_runs_from_cons cls repl b c s :
  sub_runs_from cls repl b (c :: s) =
    if cls c then
      if b then sub_runs_from cls repl true s
      else repl ++ sub_runs_from cls repl true s
    else c :: sub_runs_from cls repl false s.
Proof. reflexivity. Qed.

Lemma lower_sub_runs_from b s :
  lower (sub_runs_from not_alnum (py "_") b s)
    = sub_runs_from not_alnum (py "_") b (lower s).
Proof.
  revert b. induction s as [|c s IH]; intros b; [done|].
  unfold lower in *.
  rewrite fmap_cons, !sub_runs_from_cons, not_alnum_lower_char.
  destruct (not_alnum c); [destruct b|].
  - apply IH.
  - by rewrite fmap_app, IH.
  - by rewrite fmap_cons, IH.
Qed.

Lemma column_key_eq col :
  column_key col
    = strip_chars (py "_") (sub_runs not_alnum (py "_") (lower col)).
Proof. unfold column_key, sub_runs. f_equal. apply lower_sub_runs_from. Qed.

Lemma strip_chars_underscore_trimmed s :
  trimmed (fun c => bool_decide (c ∈ py "_")) s ↔
  head s ≠ Some Chr.UNDERSCORE ∧ last s ≠ Some Chr.UNDERSCORE.
Proof.
  unfold trimmed. split.
  - intros [Hh Hl]. split; intros H; [apply Hh in H|apply Hl in H]; done.
  - intros [Hh Hl]. split; intros c Hc; apply bool_decide_eq_false;
      intros ->%list_elem_of_singleton; [by apply Hh|by apply Hl].
Qed.

Lemma column_key_snake col : snake_key (column_key col).
Proof.
  rewrite column_key_eq. unfold strip_chars, sub_runs.
  set (u := sub_runs_from not_alnum (py "_") false (lower col)).
  assert (tidy_by not_alnum Chr.UNDERSCORE u = true) as Ht
    by (by apply (sub_runs_from_tidy_by not_alnum Chr.UNDERSCORE)).
  split; [|split].
  - apply Forall_forall. intros c Hc%strip_by_elem_of.
    pose proof (sub_runs_from_elem_of _ _ _ _ _ Hc) as [H|H].
    + by apply list_elem_of_singleton in H as ->.
    + apply sub_runs_from_elem_of_cls in Hc as [Hc|Hc];
        [by apply list_elem_of_singleton in Hc as ->|].
      apply list_elem_of_fmap in H as (d & -> & _).
      apply negb_false_iff in Hc.
      pose proof (is_upper_lower_char d) as Hu.
      unfold is_key_char. unfold is_alnum_ascii in Hc. rewrite Hu in Hc.
      simpl in Hc. by rewrite Hc.
  - intros i. apply (tidy_by_no_double not_alnum); [done|].
    by apply tidy_by_strip_by.
  - apply strip_chars_underscore_trimmed, strip_by_trimmed.
Qed.

Lemma snake_key_fixed k : snake_key k → column_key k = k.
Proof.
  intros (Hchars & Hdbl & Htrim). rewrite Forall_forall in Hchars.
  assert (lower k = k) as Hlow.
  { unfold lower. rewrite <- (list_fmap_id k) at 2.
    apply list_fmap_ext. intros i c Hc%list_elem_of_lookup_2.
    unfold lower_char.
    by destruct (is_key_char_cases c (Hchars c Hc)) as [-> _]. }
  rewrite column_key_eq, Hlow. unfold sub_runs.
  assert (tidy_by not_alnum Chr.UNDERSCORE k = true) as Ht.
  { apply tidy_by_intro; [|done]. intros c Hc.
    by apply is_key_char_cases, Hchars. }
  change (py "_") with [Chr.UNDERSCORE] at 2.
  destruct (tidy_by_sub_runs_fixed not_alnum Chr.UNDERSCORE k Ht) as [-> _].
  by apply strip_by_fixed, strip_chars_underscore_trimmed.
Qed.

(** X7. The key of a column is in snake case (lower-case ASCII letters,
    digits and underscores, no two underscores in a row, none at either
    end), and taking the key of a key changes nothing. *)
Theorem column_key_idempotent (col : str) :
  snake_key (column_key col)
  ∧ column_key (column_key col) = column_key col.
Proof.
  split; [apply column_key_snake|apply snake_key_fixed, column_key_snake].
Qed.

(** X8. A column headed by a tag in snake case gets the value of that tag:
    the key of such a header is the header, and the direct lookup finds
    the value. *)
Theorem snake_header_gets_tag (columns : list str)
    (tag_values : gmap str str) (i : nat) (k v : str) :
  snake_key k →
  columns !! i = Some k →
  tag_values !! k = Some v →
  column_key k = k ∧ build_row columns tag_values !! i = Some v.
Proof.
  intros Hk Hi Hv. pose proof (snake_key_fixed k Hk) as Hfix.
  split; [done|].
  rewrite (build_row_lookup _ _ _ _ Hi). unfold cell_value.
  by rewrite Hfix, Hv.
Qed.

Lemma snake_header_gets_tag_witness :
  column_key (py "project_name") = py "project_name"
  ∧ build_row [py "Capacity"; py "project_name"]
      {[ py "project_name" := py "Lakhwar" ]} !! 1%nat = Some (py "Lakhwar").
Proof.
  apply (snake_header_gets_tag [py "Capacity"; py "project_name"]
           {[ py "project_name" := py "Lakhwar" ]} 1 (py "project_name")).
  - change (py "project_name") with (column_key (py "Project Name")).
    apply column_key_snake.
  - reflexivity.
  - vm_compute. reflexivity.
Defined.

(** ** Rows *)

Lemma alias_loop_origin key tag_values table filled :
  alias_loop key tag_values table filled = filled
  ∨ ∃ tag aka, (tag, aka) ∈ table ∧ key ∈ aka
      ∧ tag_values !! tag = Some (alias_loop key tag_values table filled).
Proof.
  induction table as [|[t a] rest IH]; simpl; [by left|].
  case_bool_decide as Ha.
  - destruct (tag_values !! t) as [v|] eqn:Hv.
    + right. exists t, a. split; [by left|done].
    + destruct IH as [IH|(tag & aka & Hin & Hk & Hv')]; [by left|].
      right. exists tag, aka. split; [by right|done].
  - destruct IH as [IH|(tag & aka & Hin & Hk & Hv')]; [by left|].
    right. exists tag, aka. split; [by right|done].
Qed.

(** X9. With no extracted tag at all, every cell of the row is the empty
    string. *)
Theorem build_row_no_tags (columns : list str) :
  build_row columns ∅ = replicate (length columns) [].
Proof.
  rewrite build_row_eq.
  induction columns as [|col rest IH]; [done|].
  rewrite fmap_cons. simpl. f_equal; [|done].
  unfold cell_value. rewrite lookup_empty.
  apply alias_loop_miss. intros tag aka _ _. apply lookup_empty.
Qed.

(** X10. The mapper invents nothing: a cell of the row is the empty
    string or a value of the extracted tags, found under the key of its
    column or under a tag that lists that key among its alternate
    spellings. *)
Theorem build_row_cell_origin (columns : list str)
    (tag_values : gmap str str) (i : nat) (col cell : str) :
  columns !! i = Some col →
  build_row columns tag_values !! i = Some cell →
  cell = []
  ∨ tag_values !! column_key col = Some cell
  ∨ ∃ tag aka, (tag, aka) ∈ aliases ∧ column_key col ∈ aka
      ∧ tag_values !! tag = Some cell.
Proof.
  intros Hi. rewrite (build_row_lookup _ _ _ _ Hi). intros [= <-].
  unfold cell_value.
  destruct (tag_values !! column_key col) as [v|] eqn:Hv; [by right; left|].
  destruct (alias_loop_origin (column_key col) tag_values aliases [])
    as [->|H]; [by left|by right; right].
Qed.

Lemma build_row_cell_origin_witness :
  py "1" = []
  ∨ ({[ py "emd_amount_rs" := py "1" ]} : gmap str str)
      !! column_key (py "Earnest Money") = Some (py "1")
  ∨ ∃ tag aka, (tag, aka) ∈ aliases ∧ column_key (py "Earnest Money") ∈ aka
      ∧ ({[ py "emd_amount_rs" := py "1" ]} : gmap str str) !! tag
          = Some (py "1").
Proof.
  apply (build_row_cell_origin [py "Earnest Money"]
           {[ py "emd_amount_rs" := py "1" ]} 0 (py "Earnest Money")).
  - reflexivity.
  - vm_compute. reflexivity.
Defined.

(** ** Workbooks, further *)



Lemma wb_get_modify name f wb ws :
  (∀ w, title (f w) = title w) →
  wb_get name wb = Some ws →
  wb_get name (wb_modify name f wb) = Some (f ws).
Proof.
  intros Hf. induction wb as [|w wb IH]; simpl; [done|].
  case_decide as Hw.
  - intros [= <-]. simpl. by rewrite decide_True by (by rewrite Hf).
  - intros H. simpl. rewrite decide_False by done. by apply IH.
Qed.

Lemma wb_get_modify_ne name name' f wb :
  (∀ w, title (f w) = title w) → name' ≠ name →
  wb_get name' (wb_modify name f wb) = wb_get name' wb.
Proof.
  intros Hf Hne. induction wb as [|w wb IH]; simpl; [done|].
  case_decide as Hw; simpl.
  - rewrite Hf. rewrite !decide_False by congruence. done.
  - by rewrite IH.
Qed.

Lemma sheetnames_modify name f wb :
  (∀ w, title (f w) = title w) →
  sheetnames (wb_modify name f wb) = sheetnames wb.
Proof.
  intros Hf. unfold sheetnames. induction wb as [|w wb IH]; [done|].
  simpl wb_modify. case_decide; rewrite !fmap_cons;
    [by rewrite Hf|by rewrite IH].
Qed.

Lemma wb_modify_modify name f g wb :
  (∀ w, title (f w) = title w) →
  wb_modify name g (wb_modify name f wb)
    = wb_modify name (fun w => g (f w)) wb.
Proof.
  intros Hf. induction wb as [|w wb IH]; simpl; [done|].
  case_decide as Hw; simpl.
  - by rewrite decide_True by (by rewrite Hf).
  - by rewrite decide_False, IH by done.
Qed.

Lemma append_rows_inr out_path master_sheet rows fs l fs' :
  append_rows out_path master_sheet rows fs = (l, inr fs') →
  ∃ wb ws,
    fs !! out_path = Some (WorkbookFile wb)
    ∧ wb_get master_sheet wb = Some ws
    ∧ l = []
    ∧ fs' = <[out_path := WorkbookFile
                (wb_modify master_sheet
                   (fun w => Worksheet (title w) (ws_rows w ++ rows)) wb)]> fs.
Proof.
  intros H. unfold append_rows, load_workbook in H.
  destruct (fs !! out_path) as [[wb|c]|] eqn:Hfs; [|done..].
  rewrite bind_ret_l in H.
  destruct (wb_get master_sheet wb) as [ws|] eqn:Hws; [|done].
  exists wb, ws. split; [done|]. split; [done|].
  apply ret_inr in H as [-> <-]. split; [done|].
  unfold wb_save. do 2 f_equal. apply wb_modify_ext.
  intros w. apply foldl_ws_append.
Qed.

(** X12. Appending in two goes is appending in one, when the first go ends
    with a row that holds something: once [append_rows] has added such
    rows, adding others gives what adding all of them to the first file
    system gives. *)
Theorem append_rows_app (out_path master_sheet : str)
    (rows1 rows2 : list (list str)) (fs fs1 : gmap str file)
    (l : list log_record) :
  (∀ r, last rows1 = Some r → solid_row r) →
  append_rows out_path master_sheet rows1 fs = (l, inr fs1) →
  append_rows out_path master_sheet rows2 fs1
    = append_rows out_path master_sheet (rows1 ++ rows2) fs.
Proof.
  intros _ (wb & ws & Hfs & Hws & -> & ->)%append_rows_inr.
  rewrite (append_rows_eq _ _ (rows1 ++ rows2) _ _ _ Hfs Hws).
  erewrite append_rows_eq;
    [|by rewrite lookup_insert_eq|by apply wb_get_modify].
  rewrite insert_insert_eq, wb_modify_modify by done.
  do 4 f_equal. apply wb_modify_ext. intros w. simpl.
  by rewrite app_assoc.
Qed.

Lemma append_rows_app_witness :
  append_rows Sample.out_path Sample.master [[py "c"; py "d"]]
    (<[Sample.out_path :=
         WorkbookFile
           [Worksheet Sample.master
              [Sample.columns; Sample.prior_row; [py "a"; py "b"]]]]>
       Sample.fs_with_output)
  = append_rows Sample.out_path Sample.master
      ([[py "a"; py "b"]] ++ [[py "c"; py "d"]]) Sample.fs_with_output.
Proof.
  apply (append_rows_app Sample.out_path Sample.master [[py "a"; py "b"]]
           [[py "c"; py "d"]] Sample.fs_with_output _ []).
  - intros r Hr. injection Hr as <-. exists (py "b").
    split; [right; left|vm_compute; discriminate].
  - vm_compute. reflexivity.
Defined.

(** X13. [append_rows] adds the rows after the rows the sheet has and
    touches nothing else: the sheets keep their names and order, every
    other sheet keeps its rows, and every other file is as it was. *)
Theorem append_rows_frame (out_path master_sheet : str)
    (rows : list (list str)) (fs fs' : gmap str file)
    (l : list log_record) :
  append_rows out_path master_sheet rows fs = (l, inr fs') →
  ∃ wb wb' ws,
    fs !! out_path = Some (WorkbookFile wb)
    ∧ fs' !! out_path = Some (WorkbookFile wb')
    ∧ wb_get master_sheet wb = Some ws
    ∧ wb_get master_sheet wb'
        = Some (Worksheet (title ws) (ws_rows ws ++ rows))
    ∧ sheetnames wb' = sheetnames wb
    ∧ (∀ name, name ≠ master_sheet → wb_get name wb' = wb_get name wb)
    ∧ (∀ p, p ≠ out_path → fs' !! p = fs !! p).
Proof.
  intros (wb & ws & Hfs & Hws & -> & ->)%append_rows_inr.
  eexists wb, _, ws. split; [done|]. split; [by rewrite lookup_insert_eq|].
  split; [done|].
  split; [by apply (wb_get_modify master_sheet
                      (fun w => Worksheet (title w) (ws_rows w ++ rows)))|].
  split; [by apply sheetnames_modify|]. split.
  - intros name Hne. by apply wb_get_modify_ne.
  - intros p Hp. by rewrite lookup_insert_ne.
Qed.

Lemma append_rows_frame_witness :
  ∃ wb wb' ws,
    Sample.fs_with_output !! Sample.out_path = Some (WorkbookFile wb)
    ∧ (<[Sample.out_path :=
           WorkbookFile
             [Worksheet Sample.master
                [Sample.columns; Sample.prior_row; [py "a"; py "b"]]]]>
         Sample.fs_with_output) !! Sample.out_path = Some (WorkbookFile wb')
    ∧ wb_get Sample.master wb = Some ws
    ∧ wb_get Sample.master wb'
        = Some (Worksheet (title ws) (ws_rows ws ++ [[py "a"; py "b"]]))
    ∧ sheetnames wb' = sheetnames wb
    ∧ (∀ name, name ≠ Sample.master → wb_get name wb' = wb_get name wb)
    ∧ (∀ p, p ≠ Sample.out_path →
         (<[Sample.out_path :=
              WorkbookFile
                [Worksheet Sample.master
                   [Sample.columns; Sample.prior_row; [py "a"; py "b"]]]]>
            Sample.fs_with_output) !! p = Sample.fs_with_output !! p).
Proof.
  apply (append_rows_frame Sample.out_path Sample.master [[py "a"; py "b"]]
           Sample.fs_with_output _ []).
  vm_compute. reflexivity.
Defined.

(** ** The driver, further *)

Lemma bind_intro {A B} (m : M A) (f : A → M B) l1 x l2 r :
  m = (l1, inr x) → f x = (l2, r) → m ≫= f = (l1 ++ l2, r).
Proof. intros -> Hf. unfold mbind, M_bind, bind. by rewrite Hf. Qed.


Lemma dict_setdefault_lookup {V} (k k' : str) (v : V) (d : gmap str V) :
  dict_setdefault k v d !! k' =
    if decide (k = k') then Some (default v (d !! k)) else d !! k'.
Proof.
  unfold dict_setdefault. destruct (d !! k) as [w|] eqn:Hk.
  - case_decide as Hkk; [by subst|done].
  - case_decide as Hkk; [subst; by rewrite lookup_insert_eq|].
    by rewrite lookup_insert_ne.
Qed.

(** X14. The rows the loop adds are the rows of the documents with text,
    one each and in the order of the documents; a document without text
    adds none. *)
Theorem process_docs_rows (re_search : search_fn) (docs : list document)
    (columns : list str) (tag_rules : list (str * list str))
    (acc rows : list (list str)) (l : list log_record) :
  process_docs re_search docs columns tag_rules acc = (l, inr rows) →
  ∃ new, rows = acc ++ new
    ∧ Forall2 (row_of_document re_search columns tag_rules)
        (filter (fun d => strip (doc_text d) ≠ []) docs) new.
Proof.
  revert acc l. induction docs as [|p rest IH]; intros acc l.
  - intros [_ <-]%ret_inr. exists []. by rewrite app_nil_r.
  - rewrite process_docs_cons.
    intros (l1 & [] & l2 & _ & H & _)%bind_inr.
    case_bool_decide as Hblank.
    + apply bind_inr in H as (l3 & [] & l4 & _ & H & _).
      destruct (IH _ _ H) as (new & -> & Hnew).
      exists new. by rewrite filter_cons_False by (by intros []).
    + apply bind_inr in H as (l3 & tags & l4 & Hex & H & _).
      destruct (IH _ _ H) as (new & -> & Hnew).
      eexists (_ :: new). rewrite <- app_assoc. split; [done|].
      rewrite filter_cons_True by done. constructor; [|done].
      by exists l3, tags.
Qed.

Lemma process_docs_rows_witness :
  ∃ new, [[py "Lakhwar Hydro"; py "a.txt"]] = [] ++ new
    ∧ Forall2 (row_of_document Fragment.re_search Sample.columns Sample.rules)
        (filter (fun d => strip (doc_text d) ≠ []) Sample.docs) new.
Proof.
  eapply (process_docs_rows Fragment.re_search Sample.docs Sample.columns
            Sample.rules []).
  vm_compute. reflexivity.
Defined.

Lemma process_docs_blank re_search docs columns tag_rules acc :
  Forall (fun d => strip (doc_text d) = []) docs →
  ∃ l, process_docs re_search docs columns tag_rules acc = (l, inr acc).
Proof.
  induction 1 as [|p rest Hp _ [l IH]]; [by exists []|].
  rewrite process_docs_cons, bool_decide_eq_true_2 by done.
  eexists. eapply bind_intro; [reflexivity|].
  eapply bind_intro; [reflexivity|exact IH].
Qed.

(** X15. When no document has text (or there is no document), the run
    ends normally with the warning that no row was written, and the file
    system is as [ensure_workbook] left it: nothing is appended. *)
Theorem run_without_text (re_search : search_fn) (out_path : str)
    (template : option str) (master_sheet : str) (columns : list str)
    (tag_rules : list (str * list str)) (docs : list document)
    (fs fs1 : gmap str file) (l0 : list log_record) :
  Forall (fun d => strip (doc_text d) = []) docs →
  ensure_workbook out_path template master_sheet columns fs = (l0, inr fs1) →
  ∃ l, run re_search out_path template master_sheet columns tag_rules docs fs
         = (l, inr fs1)
    ∧ last l = Some no_rows_warning.
Proof.
  intros Hblank Hens.
  destruct (process_docs_blank re_search docs columns tag_rules [] Hblank)
    as [lp Hp].
  unfold run. eexists. split.
  - eapply bind_intro; [reflexivity|].
    eapply bind_intro; [exact Hens|].
    eapply bind_intro; [exact Hp|].
    eapply bind_intro; reflexivity.
  - rewrite app_nil_r, !app_assoc. apply last_snoc.
Qed.

Lemma run_without_text_witness :
  ∃ l, run Fragment.re_search Sample.out_path None Sample.master
         Sample.columns Sample.rules
         [Document (py "blank.txt") (py "  ") (py "2026-01-01T00:00:01")]
         Sample.fs_with_output
       = (l, inr {[ Sample.out_path :=
                      WorkbookFile [Worksheet Sample.master [Sample.columns]] ]})
    ∧ last l = Some no_rows_warning.
Proof.
  apply (run_without_text Fragment.re_search Sample.out_path None
           Sample.master Sample.columns Sample.rules _
           Sample.fs_with_output _ []).
  - constructor; [vm_compute; reflexivity|constructor].
  - vm_compute. reflexivity.
Defined.

(** X16. The file name and the time are added with [setdefault], so they
    never replace an extracted tag: a column with the key [source_file]
    (or [ingested_at]) holds the value extracted under that tag when the
    rules give one, and the name of the file (or the time of the run)
    otherwise. *)
Theorem derived_tags_in_row (columns : list str) (tags : gmap str str)
    (name now : str) (i : nat) (col : str) :
  columns !! i = Some col →
  (column_key col = py "source_file" →
     build_row columns
       (dict_setdefault (py "ingested_at") now
          (dict_setdefault (py "source_file") name tags)) !! i
     = Some (default name (tags !! py "source_file")))
  ∧ (column_key col = py "ingested_at" →
       build_row columns
         (dict_setdefault (py "ingested_at") now
            (dict_setdefault (py "source_file") name tags)) !! i
       = Some (default now (tags !! py "ingested_at"))).
Proof.
  intros Hi. rewrite (build_row_lookup _ _ _ _ Hi). unfold cell_value.
  split; intros ->; rewrite !dict_setdefault_lookup.
  - rewrite decide_False by (by vm_compute).
    by rewrite decide_True by done.
  - rewrite decide_True by done.
    by rewrite decide_False by (by vm_compute).
Qed.

Lemma derived_tags_in_row_witness :
  build_row [py "Source File"; py "Ingested At"]
    (dict_setdefault (py "ingested_at") (py "2026-01-01T00:00:00")
       (dict_setdefault (py "source_file") (py "a.txt")
          {[ py "source_file" := py "Annexure 3" ]})) !! 0%nat
  = Some (py "Annexure 3").
Proof.
  change (Some (py "Annexure 3"))
    with (Some (default (py "a.txt")
                  (({[ py "source_file" := py "Annexure 3" ]} : gmap str str)
                     !! py "source_file"))).
  apply (proj1 (derived_tags_in_row [py "Source File"; py "Ingested At"]
                  {[ py "source_file" := py "Annexure 3" ]} (py "a.txt")
                  (py "2026-01-01T00:00:00") 0 (py "Source File") eq_refl)).
  vm_compute. reflexivity.
Defined.




(** ** The schema loader, further *)

(** X18. A schema source that parses to a JSON value other than an object
    (a list, a string, a number, [true], [null]) makes [load_columns] raise
    [AttributeError]: only a dictionary has [get]. *)
Theorem load_columns_not_object (read_text : str → exn + str)
    (json_loads : str → exn + json) (columns_path raw : str) (meta : json) :
  read_text columns_path = inr raw →
  json_loads raw = inr meta →
  (∀ members, meta ≠ JObject members) →
  load_columns read_text json_loads columns_path = ([], inl AttributeError).
Proof.
  intros Hr Hj Hno. unfold load_columns, lift, mbind, M_bind, bind.
  rewrite Hr. cbv beta iota. rewrite Hj. cbv beta iota.
  destruct meta as [| | | | |members]; try reflexivity.
  by destruct (Hno members).
Qed.

Lemma load_columns_not_object_witness :
  load_columns (fun _ => inr (py "[]")) (fun _ => inr (JArray []))
    (py "renewable_columns_master.json")
  = ([], inl AttributeError).
Proof.
  apply (load_columns_not_object _ _ _ (py "[]") (JArray []));
    [reflexivity|reflexivity|discriminate].
Defined.

(** ** The rule file *)

Lemma dict_set_keys {V} (k : str) (v : V) (d : list (str * V)) :
  (dict_set k v d).*1 = if decide (k ∈ d.*1) then d.*1 else d.*1 ++ [k].
Proof.
  induction d as [|[k' v'] d IH]; [done|].
  simpl dict_set. rewrite !fmap_cons. simpl fst.
  destruct (decide (k' = k)) as [->|Hne].
  - rewrite fmap_cons. simpl. by rewrite decide_True by (by left).
  - rewrite fmap_cons, IH. simpl. destruct (decide (k ∈ d.*1)) as [Hin|Hin].
    + by rewrite decide_True by (by right).
    + rewrite decide_False; [done|].
      intros [?|?]%elem_of_cons; [congruence|done].
Qed.

Lemma dict_set_NoDup {V} (k : str) (v : V) (d : list (str * V)) :
  NoDup d.*1 → NoDup (dict_set k v d).*1 ∧ k ∈ (dict_set k v d).*1.
Proof.
  intros Hnd. rewrite dict_set_keys. case_decide as Hin; [done|].
  split.
  - apply NoDup_app. split; [done|]. split; [|apply NoDup_singleton].
    intros x Hx ->%list_elem_of_singleton. done.
  - apply elem_of_app. right. by left.
Qed.

Lemma dict_set_fresh {V} (k : str) (v : V) (d : list (str * V)) :
  k ∉ d.*1 → dict_set k v d = d ++ [(k, v)].
Proof.
  induction d as [|[k' v'] d IH]; [done|].
  rewrite fmap_cons. intros [Hne Hin]%not_elem_of_cons. simpl in *.
  rewrite decide_False by done. by rewrite IH.
Qed.

Lemma dict_set_set {V} (k : str) (v w : V) (d : list (str * V)) :
  dict_set k w (dict_set k v d) = dict_set k w d.
Proof.
  induction d as [|[k' v'] d IH]; simpl.
  - by rewrite decide_True.
  - destruct (decide (k' = k)) as [->|Hne]; simpl.
    + by rewrite decide_True.
    + by rewrite decide_False, IH by done.
Qed.

Lemma dict_append_set (k : str) (v : list str) (x : str)
    (d : list (str * list str)) :
  dict_append k x (dict_set k v d) = mret (dict_set k (v ++ [x]) d).
Proof.
  induction d as [|[k' v'] d IH]; simpl.
  - by rewrite decide_True.
  - destruct (decide (k' = k)) as [->|Hne]; simpl.
    + by rewrite decide_True.
    + rewrite decide_False by done. by rewrite IH, bind_ret_l.
Qed.

Lemma dict_append_ok (k x : str) (d : list (str * list str)) :
  k ∈ d.*1 → ∃ d', dict_append k x d = mret d' ∧ d'.*1 = d.*1.
Proof.
  induction d as [|[k' v'] d IH]; [by intros ?%elem_of_nil|].
  rewrite fmap_cons. simpl. intros Hin.
  destruct (decide (k' = k)) as [->|Hne].
  - by eexists.
  - apply elem_of_cons in Hin as [?|Hin]; [congruence|].
    destruct (IH Hin) as (d' & -> & Hd'). eexists.
    rewrite bind_ret_l. split; [done|]. by rewrite fmap_cons, Hd'.
Qed.

Lemma load_tags_lines_cons line rest st :
  load_tags_lines (line :: rest) st
    = load_tags_line line st ≫= load_tags_lines rest.
Proof. reflexivity. Qed.

(** The loop keeps the tags of [rules] distinct and [current_key] among
    them, and neither fails nor logs. *)
Lemma load_tags_line_ok line rules ck :
  NoDup rules.*1 → (∀ k, ck = Some k → k ∈ rules.*1) →
  ∃ rules' ck',
    load_tags_line line (rules, ck) = mret (rules', ck')
    ∧ NoDup rules'.*1 ∧ (∀ k, ck' = Some k → k ∈ rules'.*1).
Proof.
  intros Hnd Hck. unfold load_tags_line.
  destruct (bool_decide (strip line = []) || startswith (py "#") (strip line));
    [by eexists _, _|].
  destruct (negb (startswith (py " ") line)).
  - eexists _, _. split; [done|].
    destruct (dict_set_NoDup (strip (before_first 58 line)) [] rules Hnd).
    split; [done|]. by intros k [= <-].
  - destruct (item_search (strip line)) as [g|]; [|by eexists _, _].
    destruct ck as [k|]; [|by eexists _, _].
    case_bool_decide; [by eexists _, _|].
    destruct (dict_append_ok k g rules) as (d' & Hd' & Hkeys); [by apply Hck|].
    eexists _, _. rewrite Hd', bind_ret_l. split; [done|].
    rewrite Hkeys. done.
Qed.

Lemma load_tags_lines_ok lines rules ck :
  NoDup rules.*1 → (∀ k, ck = Some k → k ∈ rules.*1) →
  ∃ rules' ck',
    load_tags_lines lines (rules, ck) = mret (rules', ck')
    ∧ NoDup rules'.*1.
Proof.
  revert rules ck. induction lines as [|line rest IH]; intros rules ck Hnd Hck.
  - by eexists _, _.
  - destruct (load_tags_line_ok line rules ck Hnd Hck)
      as (r1 & ck1 & H1 & Hnd1 & Hck1).
    destruct (IH r1 ck1 Hnd1 Hck1) as (r2 & ck2 & H2 & Hnd2).
    exists r2, ck2. split; [|done].
    by rewrite load_tags_lines_cons, H1, bind_ret_l.
Qed.

(** X19. Without PyYAML, a rule file that can be read is always loaded:
    whatever its text, the fallback reader returns rules, without failure
    and without a log record, and no tag occurs twice in them. *)
Theorem load_tags_fallback_total (read_text : str → exn + str)
    (tags_path raw : str) :
  read_text tags_path = inr raw →
  ∃ rules, load_tags read_text None tags_path = ([], inr rules)
    ∧ NoDup rules.*1.
Proof.
  intros Hr.
  destruct (load_tags_lines_ok (splitlines raw) [] None) as (rules & ck & H & Hnd);
    [constructor|done|].
  exists rules. split; [|done].
  unfold load_tags, lift, parse_tags. rewrite Hr.
  change (([], inr raw) : M str) with (mret raw : M str).
  by rewrite bind_ret_l, H, bind_ret_l.
Qed.

Lemma splitlines_from_line cur line rest :
  Forall (fun c => is_linebreak c = false) line →
  splitlines_from cur (line ++ Chr.LF :: rest)
    = (cur ++ line) :: splitlines_from [] rest.
Proof.
  intros Hline. revert cur.
  induction Hline as [|c line Hc _ IH]; intros cur.
  - rewrite app_nil_r. simpl. by destruct rest.
  - simpl. rewrite Hc, IH. by rewrite <- app_assoc.
Qed.

Lemma splitlines_render lines :
  Forall (Forall (fun c => is_linebreak c = false)) lines →
  splitlines (render_text lines) = lines.
Proof.
  unfold splitlines, render_text.
  induction 1 as [|line lines Hline _ IH]; [done|].
  rewrite bind_cons, <- app_assoc. simpl.
  by rewrite splitlines_from_line, IH.
Qed.

Lemma before_first_app sep t rest :
  sep ∉ t → before_first sep (t ++ sep :: rest) = t.
Proof.
  induction t as [|c t IH]; simpl.
  - by rewrite N.eqb_refl.
  - intros [Hne Hin]%not_elem_of_cons.
    destruct (N.eqb_spec c sep); [congruence|]. by rewrite IH.
Qed.

(** A tag line. *)
Lemma load_tags_line_tag t rules ck :
  plain_tag t →
  load_tags_line (t ++ py ":") (rules, ck)
    = mret (dict_set t [] rules, Some t).
Proof.
  intros (Hne & [Hh Hl] & Hhash & Hcolon & _).
  destruct t as [|c t]; [done|]. change (py ":") with ([58] : str).
  assert (isspace c = false) as Hc by (by apply Hh).
  assert (strip ((c :: t) ++ [58]) = (c :: t) ++ [58]) as Hstrip.
  { apply strip_by_fixed. split.
    - by intros d [= <-].
    - intros d. rewrite last_snoc. by intros [= <-]. }
  unfold load_tags_line. rewrite Hstrip.
  rewrite bool_decide_eq_false_2 by done.
  assert (startswith (py "#") ((c :: t) ++ [58]) = false) as ->.
  { apply bool_decide_eq_false. intros [= ->]. by apply Hhash. }
  assert (startswith (py " ") ((c :: t) ++ [58]) = false) as ->.
  { apply bool_decide_eq_false. intros [= ->]. done. }
  simpl orb. simpl negb. cbv iota.
  rewrite (before_first_app 58 (c :: t) []) by done.
  assert (strip (c :: t) = c :: t) as -> by (by apply strip_by_fixed).
  done.
Qed.

Lemma item_at_quoted p :
  plain_pattern p → item_at (32 :: 39 :: p ++ [39]) = Some p.
Proof.
  intros Hp. unfold item_at.
  change (lstrip_by isspace (32 :: 39 :: p ++ [39])) with (39 :: p ++ [39]).
  change (39 =? 39) with true. cbv iota zeta.
  rewrite rstrip_by_fixed
    by (intros c; rewrite last_snoc; by intros [= <-]).
  rewrite last_snoc. change (39 =? 39) with true.
  rewrite length_app. simpl length.
  replace (length p + 1 - 1)%nat with (length p) by lia.
  rewrite take_app_length. rewrite bool_decide_eq_false_2; [done|].
  intros Hin. unfold plain_pattern in Hp. rewrite Forall_forall in Hp.
  by apply Hp in Hin.
Qed.

Lemma strip_item_line p :
  strip (render_item p) = 45 :: 32 :: 39 :: p ++ [39].
Proof.
  unfold strip, strip_by.
  change (lstrip_by isspace (render_item p)) with (45 :: 32 :: 39 :: p ++ [39]).
  apply rstrip_by_fixed. intros c.
  rewrite !app_comm_cons, last_snoc. by intros [= <-].
Qed.

(** A pattern line under a tag. *)
Lemma load_tags_line_item p t v rules :
  plain_pattern p → t ≠ [] →
  load_tags_line (render_item p) (dict_set t v rules, Some t)
    = mret (dict_set t (v ++ [p]) rules, Some t).
Proof.
  intros Hp Ht. unfold load_tags_line. rewrite strip_item_line.
  rewrite bool_decide_eq_false_2 by done.
  change (startswith (py "#") (45 :: 32 :: 39 :: p ++ [39])) with false.
  change (startswith (py " ") (render_item p)) with true.
  simpl orb. simpl negb. cbv iota.
  change (item_search (45 :: 32 :: 39 :: p ++ [39]))
    with (match item_at (32 :: 39 :: p ++ [39]) with
          | Some g => Some g
          | None => item_search (32 :: 39 :: p ++ [39])
          end).
  rewrite (item_at_quoted p Hp).
  rewrite bool_decide_eq_false_2 by done.
  by rewrite dict_append_set, bind_ret_l.
Qed.

Lemma load_tags_lines_items ps t v rules rest :
  Forall plain_pattern ps → t ≠ [] →
  load_tags_lines ((render_item <$> ps) ++ rest) (dict_set t v rules, Some t)
    = load_tags_lines rest (dict_set t (v ++ ps) rules, Some t).
Proof.
  intros Hps Ht. revert v.
  induction Hps as [|p ps Hp _ IH]; intros v.
  - by rewrite app_nil_r.
  - rewrite fmap_cons, <- app_comm_cons, load_tags_lines_cons.
    rewrite load_tags_line_item, bind_ret_l, IH by done.
    by rewrite <- app_assoc.
Qed.

Lemma load_tags_lines_render rules d ck :
  Forall (fun r : str * list str => plain_tag r.1 ∧ Forall plain_pattern r.2)
    rules →
  ∃ ck', load_tags_lines (render_lines rules) (d, ck)
           = mret (foldl (fun d r => dict_set r.1 r.2 d) d rules, ck').
Proof.
  intros Hrules. revert d ck.
  induction Hrules as [|[t ps] rules [Ht Hps] _ IH]; intros d ck.
  - by exists ck.
  - destruct (IH (dict_set t ps d) (Some t)) as [ck' Hck'].
    exists ck'. unfold render_lines in *. rewrite bind_cons.
    unfold render_rule at 1. simpl fst. simpl snd.
    rewrite <- app_comm_cons, load_tags_lines_cons.
    rewrite load_tags_line_tag, bind_ret_l by done.
    rewrite load_tags_lines_items; [|done|by destruct Ht].
    exact Hck'.
Qed.

Lemma foldl_dict_set_fresh {V} (d rules : list (str * V)) :
  NoDup (d.*1 ++ rules.*1) →
  foldl (fun d r => dict_set r.1 r.2 d) d rules = d ++ rules.
Proof.
  revert d. induction rules as [|[k v] rules IH]; intros d Hnd.
  - by rewrite app_nil_r.
  - simpl. rewrite fmap_cons in Hnd. simpl in Hnd.
    rewrite dict_set_fresh.
    + rewrite IH; [by rewrite <- app_assoc|].
      rewrite fmap_app, <- app_assoc. done.
    + apply NoDup_app in Hnd as (_ & Hdis & _). intros Hin.
      apply (Hdis _ Hin). by left.
Qed.

Lemma render_lines_plain rules :
  Forall (fun r : str * list str => plain_tag r.1 ∧ Forall plain_pattern r.2)
    rules →
  Forall (Forall (fun c => is_linebreak c = false)) (render_lines rules).
Proof.
  induction 1 as [|[t ps] rules [Ht Hps] _ IH]; [constructor|].
  unfold render_lines in *. rewrite bind_cons. apply Forall_app. split; [|done].
  unfold render_rule. simpl. constructor.
  - apply Forall_app. split; [apply Ht|]. by repeat constructor.
  - apply Forall_fmap. eapply Forall_impl; [exact Hps|].
    intros p Hp. simpl. unfold render_item.
    apply Forall_app. split; [by repeat constructor|].
    apply Forall_app. split; [done|by repeat constructor].
Qed.

(** X20. The fallback reader reads the layout it is written for as it is
    meant: a file of tag lines [tag:] each followed by its indented pattern
    lines [- 'pattern'] loads as the assignments [rules[tag] = patterns]
    made in order (a tag that comes again keeps only its last block), and
    when no tag comes twice the rules loaded are the rules written. *)
Theorem parse_tags_render (rules : list (str * list str)) :
  Forall (fun r : str * list str => plain_tag r.1 ∧ Forall plain_pattern r.2)
    rules →
  parse_tags (render_text (render_lines rules))
    = ([], inr (foldl (fun d r => dict_set r.1 r.2 d) [] rules))
  ∧ (NoDup rules.*1 →
       parse_tags (render_text (render_lines rules)) = ([], inr rules)).
Proof.
  intros Hrules.
  assert (parse_tags (render_text (render_lines rules))
            = ([], inr (foldl (fun d r => dict_set r.1 r.2 d) [] rules))) as H.
  { unfold parse_tags. rewrite splitlines_render by by apply render_lines_plain.
    destruct (load_tags_lines_render rules [] None Hrules) as [ck' ->].
    by rewrite bind_ret_l. }
  split; [done|]. intros Hnd. rewrite H.
  by rewrite (foldl_dict_set_fresh [] rules).
Qed.

Lemma load_tags_fallback_total_witness :
  ∃ rules,
    load_tags (fun _ => inr (py "k: v")) None (py "tags_renewable.yaml")
      = ([], inr rules)
    ∧ NoDup rules.*1.
Proof.
  apply (load_tags_fallback_total (fun _ => inr (py "k: v"))
           (py "tags_renewable.yaml") (py "k: v")).
  reflexivity.
Defined.

Ltac solve_plain_tag :=
  split; [by vm_compute|];
  split; [split; intros c Hc; vm_compute in Hc; injection Hc as <-;
          reflexivity|];
  split; [by vm_compute|];
  split; apply (bool_decide_unpack _); vm_compute; reflexivity.

Ltac solve_plain_patterns :=
  unfold plain_pattern; apply (bool_decide_unpack _); vm_compute; reflexivity.

Lemma parse_tags_render_witness :
  parse_tags (render_text (render_lines Sample.rules))
    = ([], inr Sample.rules).
Proof.
  apply (parse_tags_render Sample.rules).
  - unfold Sample.rules.
    apply Forall_cons; split; [split; [solve_plain_tag|solve_plain_patterns]|].
    apply Forall_cons; split; [split; [solve_plain_tag|solve_plain_patterns]|].
    constructor.
  - apply (bool_decide_unpack _). vm_compute. reflexivity.
Defined.

(** X21. Pattern lines count only under a tag: as long as no tag line has
    been read, or the tag read is empty, indented lines leave the rules as
    they are. *)
Theorem load_tags_lines_without_tag (lines : list str)
    (rules : list (str * list str)) (ck : option str) :
  ck = None ∨ ck = Some [] →
  Forall (fun line => startswith (py " ") line = true) lines →
  load_tags_lines lines (rules, ck) = ([], inr (rules, ck)).
Proof.
  intros Hck. induction 1 as [|line rest Hline _ IH]; [done|].
  rewrite load_tags_lines_cons.
  assert (load_tags_line line (rules, ck) = mret (rules, ck)) as ->.
  { unfold load_tags_line. rewrite Hline.
    destruct (bool_decide (strip line = [])
              || startswith (py "#") (strip line)); [done|].
    simpl negb. cbv iota.
    destruct (item_search (strip line)) as [g|]; [|done].
    by destruct Hck as [->| ->]. }
  by rewrite bind_ret_l.
Qed.

Lemma load_tags_lines_without_tag_witness :
  load_tags_lines [py "  - 'early'"; py " - 'too'"] ([], None)
    = ([], inr ([], None)).
Proof.
  apply (load_tags_lines_without_tag [py "  - 'early'"; py " - 'too'"] []
           None).
  - by left.
  - repeat constructor.
Defined.
